(** * create-tigra: the generated server's auth surface and the scaffolding CLI

    A shallow embedding of
    - [template/server/src/libs/swagger-schemas] (the cached Zod to JSON-schema
      conversion),
    - the route tables of [auth.routes.ts], [admin.routes.ts] and
      [resources.routes.ts] as [app.ts] registers them,
    - the action of [bin/create-tigra.js],
    together with the credential, token-rotation, RBAC and rate-limit
    components that the route tables call into. *)

From Stdlib Require Import ZArith List String Ascii Bool Lia.
From stdpp Require Import base option list gmap strings fin_maps.

Local Open Scope string_scope.
Local Open Scope Z_scope.
Local Set Warnings "-register-all".

(** Splits membership in a literal route table into one goal per route. *)
Ltac each_route H :=
  repeat (apply elem_of_cons in H as [-> | H]);
  [ .. | by apply elem_of_nil in H ].

(* ===================================================================== *)
(** ** JSON values *)
(* ===================================================================== *)

Module Json.

(** What a JavaScript [any] holds in this code base: JSON schemas, request
    bodies and response payloads.  [JUndefined] is JavaScript's [undefined]. *)
Inductive t : Type :=
| JUndefined
| JNull
| JBool (b : bool)
| JNum (n : Z)
| JStr (s : string)
| JArr (items : list t)
| JObj (fields : list (string * t)).

(** [obj[key]]: the first field named [key], [undefined] when there is none or
    when [obj] is no object. *)
Fixpoint assoc (key : string) (fields : list (string * t)) : t :=
  match fields with
  | [] => JUndefined
  | (k, v) :: rest => if String.eqb k key then v else assoc key rest
  end.

Definition get (key : string) (j : t) : t :=
  match j with
  | JObj fields => assoc key fields
  | _ => JUndefined
  end.

(** JavaScript truthiness, as [||] tests it. *)
Definition truthy (j : t) : bool :=
  match j with
  | JUndefined | JNull => false
  | JBool b => b
  | JNum n => negb (n =? 0)
  | JStr s => negb (String.eqb s "")
  | JArr _ | JObj _ => true
  end.

(** [a || b] *)
Definition or_else (a b : t) : t := if truthy a then a else b.

(** [a?.[key]]: [undefined] when [a] is [null] or [undefined]. *)
Definition opt_get (key : string) (a : t) : t :=
  match a with
  | JUndefined | JNull => JUndefined
  | _ => get key a
  end.

(** The names of an object's own fields. *)
Definition keys (j : t) : list string :=
  match j with
  | JObj fields => map fst fields
  | _ => []
  end.

(** Does a field named [key] occur anywhere inside [j], at any depth? *)
Fixpoint mentions (key : string) (j : t) : bool :=
  match j with
  | JArr items =>
      (fix any (l : list t) : bool :=
         match l with
         | [] => false
         | x :: rest => mentions key x || any rest
         end) items
  | JObj fields =>
      (fix any (l : list (string * t)) : bool :=
         match l with
         | [] => false
         | (k, v) :: rest => String.eqb k key || mentions key v || any rest
         end) fields
  | _ => false
  end.

End Json.

(* ===================================================================== *)
(** ** libs/swagger-schemas: [toJsonSchema] and [getDefinition] *)
(* ===================================================================== *)

Module SwaggerSchemas.

(** The conversion of the [zod-to-json-schema] package, an external
    dependency: any function from a schema and a name to a JSON schema. *)
Class Converter (ZodTypeAny : Type) := {
  zodToJsonSchema : ZodTypeAny -> string -> Json.t
}.

Section WithConverter.
Context {ZodTypeAny : Type} `{!Converter ZodTypeAny}.

(** [const schemaCache = new Map<string, any>()]: the module's private state,
    threaded through every call. *)
Definition toJsonSchema (schema : ZodTypeAny) (name : string)
    (schemaCache : gmap string Json.t) : Json.t * gmap string Json.t :=
  match schemaCache !! name with
  | Some cached => (cached, schemaCache)
  | None =>
      let jsonSchema := zodToJsonSchema schema name in
      (jsonSchema, <[name := jsonSchema]> schemaCache)
  end.

(** [(converted as any).definitions?.[name] || converted], for a converted
    schema that is an object. *)
Definition definitionOf (name : string) (converted : Json.t) : Json.t :=
  Json.or_else (Json.opt_get name (Json.get "definitions" converted)) converted.

Definition getDefinition (schema : ZodTypeAny) (name : string)
    (schemaCache : gmap string Json.t) : Json.t * gmap string Json.t :=
  let '(converted, cache') := toJsonSchema schema name schemaCache in
  (definitionOf name converted, cache').

(** One call of the module's public interface, and the cache after a run of
    them (the calls other routes make in between). *)
Inductive Call : Type :=
| CallToJsonSchema (schema : ZodTypeAny) (name : string)
| CallGetDefinition (schema : ZodTypeAny) (name : string).

Definition step (schemaCache : gmap string Json.t) (c : Call) : gmap string Json.t :=
  match c with
  | CallToJsonSchema schema name => snd (toJsonSchema schema name schemaCache)
  | CallGetDefinition schema name => snd (getDefinition schema name schemaCache)
  end.

Definition run (calls : list Call) (schemaCache : gmap string Json.t) : gmap string Json.t :=
  fold_left step calls schemaCache.

End WithConverter.

(** A concrete converter over schemas that are just lists of property names,
    for running the cache on examples. *)
Definition toyConvert (props : list string) (name : string) : Json.t :=
  Json.JObj [("title", Json.JStr name);
             ("properties", Json.JObj (map (fun p => (p, Json.JObj [])) props))].

Definition toyConverter : Converter (list string) := {| zodToJsonSchema := toyConvert |}.

End SwaggerSchemas.

(* ===================================================================== *)
(** ** Strings *)
(* ===================================================================== *)

Module Text.

(** JavaScript's string methods, on strings of one-byte characters: a
    character outside ASCII is left as it is by the case conversions and
    counts as neither a letter nor a digit. *)
Definition lowerAscii (c : ascii) : ascii :=
  let n := nat_of_ascii c in
  if (65 <=? n)%nat && (n <=? 90)%nat then ascii_of_nat (n + 32) else c.

Definition upperAscii (c : ascii) : ascii :=
  let n := nat_of_ascii c in
  if (97 <=? n)%nat && (n <=? 122)%nat then ascii_of_nat (n - 32) else c.

Fixpoint toLowerCase (s : string) : string :=
  match s with
  | EmptyString => EmptyString
  | String c rest => String (lowerAscii c) (toLowerCase rest)
  end.

(** The class [[a-z0-9]]. *)
Definition isLowerAlnum (c : ascii) : bool :=
  let n := nat_of_ascii c in
  ((97 <=? n)%nat && (n <=? 122)%nat) || ((48 <=? n)%nat && (n <=? 57)%nat).

(** The class [[a-z0-9]] under the [i] flag. *)
Definition isAlnum (c : ascii) : bool := isLowerAlnum (lowerAscii c).

Definition startsWith (p s : string) : bool := String.prefix p s.

Definition endsWith (suffix s : string) : bool :=
  (String.length suffix <=? String.length s)%nat
  && String.eqb
       (substring (String.length s - String.length suffix) (String.length suffix) s)
       suffix.

Fixpoint includes (sub s : string) : bool :=
  String.prefix sub s
  || match s with
     | EmptyString => false
     | String _ rest => includes sub rest
     end.

Definition dropChars (n : nat) (s : string) : string :=
  substring n (String.length s - n) s.

(** [s.replace(/[^a-z0-9]+/g, sep)], with the class given by [keep]: every
    maximal run of characters outside the class becomes one [sep]. *)
Fixpoint replaceRuns (keep : ascii -> bool) (sep : ascii) (s : string)
    (inRun : bool) : string :=
  match s with
  | EmptyString => EmptyString
  | String c rest =>
      if keep c then String c (replaceRuns keep sep rest false)
      else if inRun then replaceRuns keep sep rest true
      else String sep (replaceRuns keep sep rest true)
  end.

(** [s.replace(/^-|-$/g, '')] for the separator [sep]: one separator off the
    front, then one off the end of what is left. *)
Definition stripLeading (sep : ascii) (s : string) : string :=
  match s with
  | String c rest => if Ascii.eqb c sep then rest else s
  | EmptyString => s
  end.

Definition stripTrailing (sep : ascii) (s : string) : string :=
  if endsWith (String sep EmptyString) s
  then substring 0 (String.length s - 1) s
  else s.

Definition stripEnds (sep : ascii) (s : string) : string :=
  stripTrailing sep (stripLeading sep s).

(** [s.split(key).join(value)] for a non-empty [key]: the occurrences of
    [key], found left to right without overlap, each become [value].
    [skip] counts the characters of an occurrence still to be dropped. *)
Fixpoint replaceAllFrom (key value s : string) (skip : nat) : string :=
  match s with
  | EmptyString => EmptyString
  | String c rest =>
      match skip with
      | S k => replaceAllFrom key value rest k
      | O =>
          if String.prefix key s
          then value ++ replaceAllFrom key value rest (String.length key - 1)
          else String c (replaceAllFrom key value rest 0)
      end
  end.

Definition replaceAll (key value s : string) : string :=
  replaceAllFrom key value s 0.

(** The double quote, for messages that quote a name. *)
Definition dq : string := String (ascii_of_nat 34) EmptyString.

End Text.

(* ===================================================================== *)
(** ** Errors and the response envelope *)
(* ===================================================================== *)

Module Envelope.

(** The error taxonomy of the API, each with its HTTP status. *)
Inductive ErrorCode : Type :=
| ValidationError
| DuplicateEmail
| InvalidCredentials
| TokenInvalid
| TokenExpired
| TokenReuseDetected
| Forbidden
| NotFound
| RateLimited.

Definition statusOf (e : ErrorCode) : Z :=
  match e with
  | ValidationError => 400
  | DuplicateEmail => 409
  | InvalidCredentials | TokenInvalid | TokenExpired | TokenReuseDetected => 401
  | Forbidden => 403
  | NotFound => 404
  | RateLimited => 429
  end.

Definition codeName (e : ErrorCode) : string :=
  match e with
  | ValidationError => "ValidationError"
  | DuplicateEmail => "DuplicateEmail"
  | InvalidCredentials => "InvalidCredentials"
  | TokenInvalid => "TokenInvalid"
  | TokenExpired => "TokenExpired"
  | TokenReuseDetected => "TokenReuseDetected"
  | Forbidden => "Forbidden"
  | NotFound => "NotFound"
  | RateLimited => "RateLimited"
  end.

(** The wording of each error is the server's choice; all the model needs is
    that it is chosen per error code. *)
Class ErrorText := { messageOf : ErrorCode -> string }.

Inductive Result (A : Type) : Type :=
| Ok (a : A)
| Err (e : ErrorCode).
Arguments Ok {A} a.
Arguments Err {A} e.

(** An HTTP reply: status and JSON body. *)
Record Reply : Type := { status : Z; body : Json.t }.

(** [{success, message?, data, error?}] *)
Definition success (code : Z) (data : Json.t) : Reply :=
  {| status := code;
     body := Json.JObj [("success", Json.JBool true); ("data", data)] |}.

Definition failure `{ErrorText} (e : ErrorCode) : Reply :=
  {| status := statusOf e;
     body := Json.JObj
       [("success", Json.JBool false);
        ("data", Json.JNull);
        ("error", Json.JObj [("code", Json.JStr (codeName e));
                             ("message", Json.JStr (messageOf e))])] |}.

(** Error wording used when running examples. *)
Definition plainText : ErrorText := {| messageOf := codeName |}.

End Envelope.

(* ===================================================================== *)
(** ** Route tables: auth.routes.ts, admin.routes.ts, resources.routes.ts *)
(* ===================================================================== *)

Module Routes.

Inductive Method : Type := GET | POST | PATCH | DELETE.

(** Modelled from the spec: the role enumeration (the Prisma schema is not
    among the sources): USER and ADMIN, and the guest that [requireAny]
    leaves out. *)
Inductive Role : Type := GUEST | USER | ADMIN.

(** The decorators [app.ts] installs and the route files put in
    [preHandler]: [authenticate], [requireRole(role)], [requireAdmin()],
    [requireUser()], [requireAny()]. *)
Inductive Guard : Type :=
| authenticate
| requireRole (r : Role)
| requireAdmin
| requireUser
| requireAny.

(** [config: { rateLimit: { max, timeWindow } }] *)
Record RateLimit : Type := { max : Z; timeWindow : string }.

(** Where a validated part of [schema] comes from: a zod schema of the
    module's [*.schemas] file turned into JSON Schema under a name,
    [toJsonSchema(Schema, name)]; a JSON Schema written in the route file; or
    the object schema GET /resources builds from the [properties] of two
    conversions. *)
Inductive SchemaSource : Type :=
| FromZod (name : string)
| Inline (schema : Json.t)
| MergedProperties (names : list string).

(** The parts of [schema] Fastify validates a request against. *)
Record RouteSchema : Type := {
  schemaBody : option SchemaSource;
  schemaParams : option SchemaSource;
  schemaQuerystring : option SchemaSource
}.

Definition noSchema : RouteSchema :=
  {| schemaBody := None; schemaParams := None; schemaQuerystring := None |}.

(** The [params] schema resources.routes.ts writes out for [/:id]. *)
Definition idParams : Json.t :=
  Json.JObj
    [("type", Json.JStr "object");
     ("properties",
      Json.JObj [("id", Json.JObj [("type", Json.JStr "string");
                                   ("format", Json.JStr "uuid");
                                   ("description", Json.JStr "Resource ID")])]);
     ("required", Json.JArr [Json.JStr "id"])].

(** One [fastify.<method>(url, { schema, config, preHandler, handler })]. *)
Record Route : Type := {
  method : Method;
  url : string;
  rateLimit : option RateLimit;
  preHandler : list Guard;
  handler : string;
  (** the status codes of [schema.response] *)
  responses : list Z;
  (** [schema.body], [schema.params], [schema.querystring] *)
  schema : RouteSchema
}.

Definition authRoutes : list Route :=
  [ {| method := POST; url := "/register";
       rateLimit := Some {| max := 3; timeWindow := "1 hour" |};
       preHandler := [];
       handler := "authController.register";
       responses := [201; 400; 409];
       schema := {| schemaBody := Some (FromZod "RegisterRequest"); schemaParams := None;
                   schemaQuerystring := None |} |};
    {| method := POST; url := "/login";
       rateLimit := Some {| max := 5; timeWindow := "15 minutes" |};
       preHandler := [];
       handler := "authController.login";
       responses := [200; 401];
       schema := {| schemaBody := Some (FromZod "LoginRequest"); schemaParams := None;
                   schemaQuerystring := None |} |};
    {| method := POST; url := "/refresh";
       rateLimit := Some {| max := 10; timeWindow := "15 minutes" |};
       preHandler := [];
       handler := "authController.refreshTokens";
       responses := [200; 401];
       schema := {| schemaBody := Some (FromZod "RefreshTokenRequest"); schemaParams := None;
                   schemaQuerystring := None |} |};
    {| method := POST; url := "/logout";
       rateLimit := None;
       preHandler := [];
       handler := "authController.logout";
       responses := [200];
       schema := {| schemaBody := Some (FromZod "RefreshTokenRequest"); schemaParams := None;
                   schemaQuerystring := None |} |};
    {| method := GET; url := "/me";
       rateLimit := None;
       preHandler := [authenticate];
       handler := "authController.getMe";
       responses := [200; 401; 404];
       schema := noSchema |} ].

Definition adminRoutes : list Route :=
  [ {| method := GET; url := "/users";
       rateLimit := None;
       preHandler := [authenticate; requireAdmin];
       handler := "adminController.listAllUsers";
       responses := [];
       schema := {| schemaBody := None; schemaParams := None;
                   schemaQuerystring := Some (FromZod "ListUsersSchema") |} |};
    {| method := GET; url := "/users/:id";
       rateLimit := None;
       preHandler := [authenticate; requireAdmin];
       handler := "adminController.getUserById";
       responses := [];
       schema := {| schemaBody := None; schemaParams := Some (FromZod "UserIdSchema");
                   schemaQuerystring := None |} |};
    {| method := DELETE; url := "/users/:id";
       rateLimit := None;
       preHandler := [authenticate; requireAdmin];
       handler := "adminController.deleteUser";
       responses := [];
       schema := {| schemaBody := None; schemaParams := Some (FromZod "UserIdSchema");
                   schemaQuerystring := None |} |};
    {| method := POST; url := "/users/:id/change-role";
       rateLimit := None;
       preHandler := [authenticate; requireAdmin];
       handler := "adminController.changeUserRole";
       responses := [];
       schema := {| schemaBody := Some (FromZod "ChangeRoleSchema"); schemaParams := Some (FromZod "UserIdSchema");
                   schemaQuerystring := None |} |};
    {| method := POST; url := "/users/:id/verify-email";
       rateLimit := None;
       preHandler := [authenticate; requireAdmin];
       handler := "adminController.verifyUserEmail";
       responses := [];
       schema := {| schemaBody := None; schemaParams := Some (FromZod "UserIdSchema");
                   schemaQuerystring := None |} |};
    {| method := GET; url := "/stats";
       rateLimit := None;
       preHandler := [authenticate; requireAdmin];
       handler := "adminController.getSystemStats";
       responses := [];
       schema := noSchema |} ].

Definition resourceRoutes : list Route :=
  [ {| method := GET; url := "/";
       rateLimit := Some {| max := 100; timeWindow := "15 minutes" |};
       preHandler := [];
       handler := "resourceController.listResources";
       responses := [200];
       schema := {| schemaBody := None; schemaParams := None;
                   schemaQuerystring := Some (MergedProperties ["ResourceFiltersSchema"; "PaginationSchema"]) |} |};
    {| method := GET; url := "/my";
       rateLimit := Some {| max := 1000; timeWindow := "15 minutes" |};
       preHandler := [authenticate; requireAny];
       handler := "resourceController.getMyResources";
       responses := [200; 401];
       schema := {| schemaBody := None; schemaParams := None;
                   schemaQuerystring := Some (FromZod "PaginationSchema") |} |};
    {| method := GET; url := "/:id";
       rateLimit := Some {| max := 100; timeWindow := "15 minutes" |};
       preHandler := [];
       handler := "resourceController.getResource";
       responses := [200; 404];
       schema := {| schemaBody := None; schemaParams := Some (Inline idParams);
                   schemaQuerystring := None |} |};
    {| method := POST; url := "/";
       rateLimit := Some {| max := 1000; timeWindow := "15 minutes" |};
       preHandler := [authenticate; requireAny];
       handler := "resourceController.createResource";
       responses := [201; 400; 401];
       schema := {| schemaBody := Some (FromZod "CreateResourceRequest"); schemaParams := None;
                   schemaQuerystring := None |} |};
    {| method := PATCH; url := "/:id";
       rateLimit := Some {| max := 1000; timeWindow := "15 minutes" |};
       preHandler := [authenticate; requireAny];
       handler := "resourceController.updateResource";
       responses := [200; 400; 401; 403; 404];
       schema := {| schemaBody := Some (FromZod "UpdateResourceRequest"); schemaParams := Some (Inline idParams);
                   schemaQuerystring := None |} |};
    {| method := DELETE; url := "/:id";
       rateLimit := Some {| max := 1000; timeWindow := "15 minutes" |};
       preHandler := [authenticate; requireAny];
       handler := "resourceController.deleteResource";
       responses := [200; 401; 403; 404];
       schema := {| schemaBody := None; schemaParams := Some (Inline idParams);
                   schemaQuerystring := None |} |} ].

(** The [properties] of the 200 response of GET /auth/me, under [data]. *)
Definition meResponseProperties : list string :=
  ["id"; "email"; "name"; "role"; "emailVerified"; "createdAt"; "updatedAt"].

(** [app.register(plugin, { prefix })]: every route of the plugin with the
    prefix in front of its url. *)
Definition withPrefix (prefix : string) (r : Route) : Route :=
  {| method := method r;
     url := prefix ++ url r;
     rateLimit := rateLimit r;
     preHandler := preHandler r;
     handler := handler r;
     responses := responses r;
     schema := schema r |}.

Definition register (plugin : list Route) (prefix : string) : list Route :=
  map (withPrefix prefix) plugin.

Section BuildApp.
(** [env.API_PREFIX] and the routes of [healthRoutes] come from modules that
    are configuration of the generated project. *)
Variable API_PREFIX : string.
Variable healthRoutes : list Route.

Definition authPrefix : string := API_PREFIX ++ "/auth".
Definition resourcesPrefix : string := API_PREFIX ++ "/resources".
Definition adminPrefix : string := API_PREFIX ++ "/admin".

(** Step 5 of [buildApp]. *)
Definition buildApp : list Route :=
  healthRoutes
  ++ register authRoutes authPrefix
  ++ register resourceRoutes resourcesPrefix
  ++ register adminRoutes adminPrefix.

End BuildApp.

(** The route a plugin registers for a method and url. *)
Definition methodEqb (a b : Method) : bool :=
  match a, b with
  | GET, GET | POST, POST | PATCH, PATCH | DELETE, DELETE => true
  | _, _ => false
  end.

Definition findRoute (m : Method) (u : string) (table : list Route) : option Route :=
  List.find (fun r => methodEqb (method r) m && String.eqb (url r) u) table.

End Routes.

(* ===================================================================== *)
(** ** Token Issuer (access tokens) and the request lifecycle *)
(* ===================================================================== *)

Module Lifecycle.
Import Envelope Routes.

(** [{subject = userId, role, issuedAt, expiresAt}] *)
Record AccessTokenClaims : Type := {
  subject : nat;
  role : Role;
  issuedAt : Z;
  expiresAt : Z
}.

(** Signature checking is the JWT library's: [decodeSigned token] is the
    claims a token carries when its signature verifies against the server
    secret and its claims are well formed, [None] otherwise. *)
Class AccessCodec := { decodeSigned : string -> option AccessTokenClaims }.

(** Modelled from the spec: [verifyAccessToken] of the Token Issuer, whose
    module (libs/auth) is not among the sources.  Fails with [TokenInvalid]
    on a bad signature or malformed claims and with [TokenExpired] past
    expiry; the comparison is the strict [now < exp]. *)
Definition verifyAccessToken `{AccessCodec} (token : string) (now : Z)
    : Result AccessTokenClaims :=
  match decodeSigned token with
  | None => Err TokenInvalid
  | Some claims =>
      if now <? expiresAt claims then Ok claims else Err TokenExpired
  end.

(** What the server reads of a request before the handler: the bearer token
    of the [Authorization] header, the claims [authenticate] attached, the
    network identity of the caller, and the parts Fastify validates against
    the route's schema: [request.body], [request.params], [request.query]. *)
Record Request : Type := {
  bearer : option string;
  user : option AccessTokenClaims;
  ip : string;
  requestBody : Json.t;
  requestParams : Json.t;
  requestQuery : Json.t
}.

Definition attach (claims : AccessTokenClaims) (req : Request) : Request :=
  {| bearer := bearer req; user := Some claims; ip := ip req;
     requestBody := requestBody req; requestParams := requestParams req;
     requestQuery := requestQuery req |}.

(** Fastify compiles each part of a route's schema with Ajv (an external
    dependency, as are the zod schemas behind [FromZod]): [conforms s v]
    says whether the value conforms to the compiled schema. *)
Class Validator := { conforms : SchemaSource -> Json.t -> bool }.

Definition conformsTo `{Validator} (part : option SchemaSource) (value : Json.t)
    : bool :=
  match part with
  | None => true
  | Some s => conforms s value
  end.

(** Fastify's validation step: params, body and querystring against the parts
    of [schema] the route declares; a part the route does not declare is not
    checked. *)
Definition validate `{Validator} (route : Route) (req : Request) : bool :=
  conformsTo (schemaParams (schema route)) (requestParams req)
  && conformsTo (schemaBody (schema route)) (requestBody req)
  && conformsTo (schemaQuerystring (schema route)) (requestQuery req).

(** A preHandler hook either lets the request through (possibly decorated)
    or replies itself, which ends the request. *)
Inductive HookResult : Type :=
| Continue (req : Request)
| Halt (reply : Reply).

(** The total order over roles, by privilege. *)
Definition rank (r : Role) : nat :=
  match r with
  | GUEST => 0
  | USER => 1
  | ADMIN => 2
  end.

(** What a request comes to: a reply sent by a hook, the handler never
    called, or the call of the route's handler with the decorated request. *)
Inductive Outcome : Type :=
| Replied (reply : Reply)
| Invoked (handlerName : string) (req : Request).

Section Chain.
Context `{ErrorText} `{Validator}.
(** What each decorator does with a request at a given time.  The hooks are
    functions of libs/auth; the chain below is Fastify's and runs whatever
    they are. *)
Variable guard : Z -> Guard -> Request -> HookResult.

(** Fastify runs the [preHandler] array in order and stops at the first hook
    that replies. *)
Fixpoint runPreHandlers (now : Z) (hooks : list Guard) (req : Request) : HookResult :=
  match hooks with
  | [] => Continue req
  | g :: rest =>
      match guard now g req with
      | Continue req' => runPreHandlers now rest req'
      | Halt reply => Halt reply
      end
  end.

(** Fastify's lifecycle from validation on: a request that does not conform
    to the route's schema is answered 400 and no [preHandler] hook runs;
    otherwise the hooks run, and the handler after them.  (The rate-limit
    hook comes before, see [Server.serve].) *)
Definition dispatch (now : Z) (route : Route) (req : Request) : Outcome :=
  if validate route req then
    match runPreHandlers now (preHandler route) req with
    | Halt reply => Replied reply
    | Continue req' => Invoked (handler route) req'
    end
  else Replied (failure ValidationError).

End Chain.

Section Guards.
Context `{ErrorText} `{AccessCodec}.

(** Modelled from the spec: [authenticateMiddleware] (libs/auth, not among
    the sources): token presence, then token validity through
    [verifyAccessToken]; any failure is a 401. *)
Definition runAuthenticate (now : Z) (req : Request) : HookResult :=
  match bearer req with
  | None => Halt (failure TokenInvalid)
  | Some token =>
      match verifyAccessToken token now with
      | Ok claims => Continue (attach claims req)
      | Err e => Halt (failure e)
      end
  end.

(** Modelled from the spec: the guards of [rbac.middleware] (libs/auth, not
    among the sources).  [requireRole] is a function of the caller's role
    and the required one over the order of roles; no attached user is a
    deny; [requireAdmin] is [requireRole ADMIN] and [requireUser] is
    [requireRole USER]. *)
Definition runRequireRole (required : Role) (req : Request) : HookResult :=
  match user req with
  | None => Halt (failure TokenInvalid)
  | Some claims =>
      if (rank required <=? rank (role claims))%nat
      then Continue req
      else Halt (failure Forbidden)
  end.

(** Modelled from the spec: [requireAny] of [rbac.middleware] (libs/auth,
    not among the sources): any authenticated role but the guest. *)
Definition runRequireAny (req : Request) : HookResult :=
  match user req with
  | None => Halt (failure TokenInvalid)
  | Some claims =>
      match role claims with
      | GUEST => Halt (failure Forbidden)
      | _ => Continue req
      end
  end.

(** Modelled from the spec: the decorators as the RBAC Evaluator describes
    them. *)
Definition runGuard (now : Z) (g : Guard) (req : Request) : HookResult :=
  match g with
  | authenticate => runAuthenticate now req
  | requireRole r => runRequireRole r req
  | requireAdmin => runRequireRole ADMIN req
  | requireUser => runRequireRole USER req
  | requireAny => runRequireAny req
  end.

End Guards.

(** Modelled from the spec: what the RBAC Evaluator promises of the
    decorators of libs/auth (not among the sources), as far as a USER is
    concerned: [authenticate] lets a request with a valid access token
    through, its claims attached; [requireAdmin] answers a USER with
    Forbidden; [requireAny] lets a USER through. *)
Record GuardContract `{ErrorText} `{AccessCodec}
    (guard : Z -> Guard -> Request -> HookResult) : Prop := {
  authenticate_accepts : forall now req token claims,
    bearer req = Some token ->
    verifyAccessToken token now = Ok claims ->
    guard now authenticate req = Continue (attach claims req);
  requireAdmin_refuses_user : forall now req claims,
    user req = Some claims -> role claims = USER ->
    guard now requireAdmin req = Halt (failure Forbidden);
  requireAny_accepts_user : forall now req claims,
    user req = Some claims -> role claims = USER ->
    guard now requireAny req = Continue req
}.

(** Tokens used when running examples: two well-signed tokens, one per role. *)
Definition toyCodec : AccessCodec :=
  {| decodeSigned := fun token =>
       if String.eqb token "user-token"
       then Some {| subject := 7; role := USER; issuedAt := 0; expiresAt := 900000 |}
       else if String.eqb token "admin-token"
       then Some {| subject := 1; role := ADMIN; issuedAt := 0; expiresAt := 900000 |}
       else None |}.

(** Ajv's [uuid] format:
    [/^(?:urn:uuid:)?[0-9a-f]{8}-(?:[0-9a-f]{4}-){3}[0-9a-f]{12}$/i]. *)
Definition isHex (c : ascii) : bool :=
  let n := nat_of_ascii (Text.lowerAscii c) in
  ((48 <=? n) && (n <=? 57) || (97 <=? n) && (n <=? 102))%nat.

Fixpoint hexRun (n : nat) (s : string) : option string :=
  match n with
  | O => Some s
  | S n' =>
      match s with
      | String c rest => if isHex c then hexRun n' rest else None
      | EmptyString => None
      end
  end.

Definition dashThen (n : nat) (s : option string) : option string :=
  match s with
  | Some (String "-" rest) => hexRun n rest
  | _ => None
  end.

Definition isUuidBare (s : string) : bool :=
  match dashThen 12 (dashThen 4 (dashThen 4 (dashThen 4 (hexRun 8 s)))) with
  | Some EmptyString => true
  | _ => false
  end.

Definition isUuid (s : string) : bool :=
  isUuidBare s
  || Text.startsWith "urn:uuid:" (Text.toLowerCase s)
     && isUuidBare (String.substring 9 (String.length s - 9) s).

(** Validation used when running examples.  The [/:id] params schema of the
    route file is checked as written: an object with a string [id] in uuid
    format.  Of the schemas that come from zod only this much is used: they
    are object schemas, so a value that is no object does not conform. *)
Definition objectValidator : Validator :=
  {| conforms := fun s v =>
       match v with
       | Json.JObj _ =>
           match s with
           | Inline _ =>
               match Json.get "id" v with
               | Json.JStr id => isUuid id
               | _ => false
               end
           | _ => true
           end
       | _ => false
       end |}.

End Lifecycle.

(* ===================================================================== *)
(** ** Rate Limit Gate *)
(* ===================================================================== *)

Module RateLimitGate.
Import Envelope Routes.

(** *** Reading a [timeWindow] such as '15 minutes' (the [ms] notation) *)

Definition digitOf (c : ascii) : option Z :=
  let n := Z.of_nat (nat_of_ascii c) in
  if (48 <=? n) && (n <=? 57) then Some (n - 48) else None.

Fixpoint readNumber (s : string) (acc : option Z) : option Z * string :=
  match s with
  | String c rest =>
      match digitOf c with
      | Some d => readNumber rest (Some (10 * default 0 acc + d))
      | None => (acc, s)
      end
  | EmptyString => (acc, s)
  end.

Definition unitMs (u : string) : option Z :=
  if existsb (String.eqb u) ["ms"; "millisecond"; "milliseconds"] then Some 1
  else if existsb (String.eqb u) ["s"; "sec"; "secs"; "second"; "seconds"] then Some 1000
  else if existsb (String.eqb u) ["m"; "min"; "mins"; "minute"; "minutes"] then Some 60000
  else if existsb (String.eqb u) ["h"; "hr"; "hrs"; "hour"; "hours"] then Some 3600000
  else if existsb (String.eqb u) ["d"; "day"; "days"] then Some 86400000
  else None.

Definition parseTimeWindow (s : string) : option Z :=
  match readNumber s None with
  | (Some n, String " " u) | (Some n, u) =>
      match unitMs u with
      | Some k => Some (n * k)
      | None => None
      end
  | (None, _) => None
  end.

(** [{max, window}] with the window in milliseconds. *)
Record Limit : Type := { limitMax : Z; windowMs : Z }.

Definition limitOf (cfg : RateLimit) : option Limit :=
  match parseTimeWindow (timeWindow cfg) with
  | Some w => Some {| limitMax := max cfg; windowMs := w |}
  | None => None
  end.

(** *** The counter *)

(** The count of the active window of one key, and when that window ends. *)
Record Window : Type := { count : Z; resetAt : Z }.

Inductive Verdict : Type :=
| Allowed
| Limited (retryAfterMs : Z).

(** Modelled from the spec: the gate of the rate-limit plugin
    (plugins/rate-limit.plugin, not among the sources): a fixed-window
    counter per key whose expiry equals the window; one atomic
    increment-and-check that fails with [RateLimited] once the count of the
    active window exceeds [max]. *)
Definition hit (l : Limit) (key : string * string) (now : Z)
    (counters : gmap (string * string) Window)
    : Verdict * gmap (string * string) Window :=
  let current :=
    match counters !! key with
    | Some w => if now <? resetAt w then w
                else {| count := 0; resetAt := now + windowMs l |}
    | None => {| count := 0; resetAt := now + windowMs l |}
    end in
  let bumped := {| count := count current + 1; resetAt := resetAt current |} in
  (if limitMax l <? count bumped then Limited (resetAt bumped - now) else Allowed,
   <[key := bumped]> counters).

Arguments hit : simpl never.

(** A key starts a new window at [now] when it has no counter or its window
    has run out. *)
Definition startsWindow (key : string * string) (now : Z)
    (counters : gmap (string * string) Window) : Prop :=
  match counters !! key with
  | None => True
  | Some w => resetAt w <= now
  end.

(** A run of requests of one key at the given times. *)
Fixpoint hits (l : Limit) (key : string * string) (times : list Z)
    (counters : gmap (string * string) Window)
    : list Verdict * gmap (string * string) Window :=
  match times with
  | [] => ([], counters)
  | now :: later =>
      let '(v, counters') := hit l key now counters in
      let '(vs, counters'') := hits l key later counters' in
      (v :: vs, counters'')
  end.

Definition replyOf `{ErrorText} (v : Verdict) : option Reply :=
  match v with
  | Allowed => None
  | Limited _ => Some (failure RateLimited)
  end.

(** The gate in front of a route with a [config.rateLimit] of its own: the
    key is the route and the caller.  A route without one falls under the
    plugin's global settings, which are configuration of the generated
    project; the model lets it pass. *)
Definition gate (route : Route) (caller : string) (now : Z)
    (counters : gmap (string * string) Window)
    : Verdict * gmap (string * string) Window :=
  match rateLimit route with
  | Some cfg =>
      match limitOf cfg with
      | Some l => hit l (url route, caller) now counters
      | None => (Allowed, counters)
      end
  | None => (Allowed, counters)
  end.

Fixpoint gates (route : Route) (caller : string) (times : list Z)
    (counters : gmap (string * string) Window)
    : list Verdict * gmap (string * string) Window :=
  match times with
  | [] => ([], counters)
  | now :: later =>
      let '(v, counters') := gate route caller now counters in
      let '(vs, counters'') := gates route caller later counters' in
      (v :: vs, counters'')
  end.

End RateLimitGate.

(* ===================================================================== *)
(** ** A request from the rate-limit hook to the handler *)
(* ===================================================================== *)

Module Server.
Import Envelope Routes Lifecycle RateLimitGate.

Section Serve.
Context `{ErrorText} `{Validator}.
Variable guard : Z -> Guard -> Request -> HookResult.
(** The limit [registerRateLimit] (plugins/rate-limit.plugin, configuration
    of the generated project) puts on a route with no [config.rateLimit] of
    its own, if it puts one. *)
Variable globalLimit : option Limit.

(** The [onRequest] hook of the rate-limit plugin. *)
Definition onRequest (now : Z) (route : Route) (req : Request)
    (counters : gmap (string * string) Window)
    : Verdict * gmap (string * string) Window :=
  match rateLimit route, globalLimit with
  | None, Some l => hit l (url route, ip req) now counters
  | _, _ => gate route (ip req) now counters
  end.

(** One request on one route: the rate-limit hook, then validation, then the
    [preHandler] chain, then the handler. *)
Definition serve (now : Z) (route : Route) (req : Request)
    (counters : gmap (string * string) Window)
    : Outcome * gmap (string * string) Window :=
  let '(verdict, counters') := onRequest now route req counters in
  (match replyOf verdict with
   | Some reply => Replied reply
   | None => dispatch guard now route req
   end, counters').

End Serve.

(** Requests and routes used when running examples. *)
Definition aUuid : string := "3f2c8a10-5b7e-4c1d-9a42-0e6f1b2d3c4a".

(** POST /users/:id/change-role of admin.routes.ts. *)
Definition changeRole : Route :=
  {| method := POST; url := "/users/:id/change-role";
     rateLimit := None;
     preHandler := [authenticate; requireAdmin];
     handler := "adminController.changeUserRole";
     responses := [];
     schema := {| schemaBody := Some (FromZod "ChangeRoleSchema");
                  schemaParams := Some (FromZod "UserIdSchema");
                  schemaQuerystring := None |} |}.

(** GET /:id of resources.routes.ts. *)
Definition getResource : Route :=
  {| method := GET; url := "/:id";
     rateLimit := Some {| max := 100; timeWindow := "15 minutes" |};
     preHandler := [];
     handler := "resourceController.getResource";
     responses := [200; 404];
     schema := {| schemaBody := None; schemaParams := Some (Inline idParams);
                  schemaQuerystring := None |} |}.

(** A USER's request with a role in its body and a user id in its params. *)
Definition userChangesRole : Request :=
  {| bearer := Some "user-token"; user := None; ip := "10.0.0.1";
     requestBody := Json.JObj [("role", Json.JStr "ADMIN")];
     requestParams := Json.JObj [("id", Json.JStr aUuid)];
     requestQuery := Json.JObj [] |}.

(** The same request sent without a body. *)
Definition userSendsNoBody : Request :=
  {| bearer := Some "user-token"; user := None; ip := "10.0.0.1";
     requestBody := Json.JUndefined;
     requestParams := Json.JObj [("id", Json.JStr aUuid)];
     requestQuery := Json.JObj [] |}.

(** Requests without an [Authorization] header. *)
Definition anonymousReads : Request :=
  {| bearer := None; user := None; ip := "10.0.0.2";
     requestBody := Json.JUndefined;
     requestParams := Json.JObj [("id", Json.JStr aUuid)];
     requestQuery := Json.JObj [] |}.

Definition anonymousReadsBadId : Request :=
  {| bearer := None; user := None; ip := "10.0.0.2";
     requestBody := Json.JUndefined;
     requestParams := Json.JObj [("id", Json.JStr "42")];
     requestQuery := Json.JObj [] |}.

End Server.

(* ===================================================================== *)
(** ** Refresh Token Store and Rotation Protocol *)
(* ===================================================================== *)

Module Rotation.
Import Envelope.

(** What the protocol takes from the Token Issuer: the one-way hash under
    which a raw refresh token is stored, the signed access token minted for
    a subject at a time, and the lifetime of a refresh token. *)
Class TokenIssuer := {
  hashToken : string -> string;
  accessTokenFor : nat -> Z -> string;
  refreshLifetime : Z
}.

(** Modelled from the spec: the rows of the Refresh Token Store (the Prisma
    schema is not among the sources). *)
Record RefreshTokenRecord : Type := {
  id : nat;
  userId : nat;
  tokenHash : string;
  issuedAt : Z;
  expiresAt : Z;
  revokedAt : option Z;
  replacedByTokenId : option nat
}.

Record TokenPair : Type := { accessToken : string; refreshToken : string }.

(** Modelled from the spec: the states of a chain link,
    [ACTIVE -> {ROTATED, REVOKED, EXPIRED}], read off a record at a time: a
    record with a successor is ROTATED, a revoked one without is REVOKED,
    and an untouched one is EXPIRED from [expiresAt] on. *)
Inductive LinkState : Type := ACTIVE | ROTATED | REVOKED | EXPIRED.

Definition stateOf (now : Z) (r : RefreshTokenRecord) : LinkState :=
  match replacedByTokenId r, revokedAt r with
  | Some _, _ => ROTATED
  | None, Some _ => REVOKED
  | None, None => if expiresAt r <=? now then EXPIRED else ACTIVE
  end.

Definition setRevoked (now : Z) (r : RefreshTokenRecord) : RefreshTokenRecord :=
  {| id := id r; userId := userId r; tokenHash := tokenHash r;
     issuedAt := issuedAt r; expiresAt := expiresAt r;
     revokedAt := Some now; replacedByTokenId := replacedByTokenId r |}.

(** A record is revoked once: the first [revokedAt] stays. *)
Definition revoke (now : Z) (r : RefreshTokenRecord) : RefreshTokenRecord :=
  match revokedAt r with
  | Some _ => r
  | None => setRevoked now r
  end.

Definition rotate (now : Z) (successor : nat) (r : RefreshTokenRecord)
    : RefreshTokenRecord :=
  {| id := id r; userId := userId r; tokenHash := tokenHash r;
     issuedAt := issuedAt r; expiresAt := expiresAt r;
     revokedAt := Some now; replacedByTokenId := Some successor |}.

(** The store: the records in the order they were created. *)
Definition findByHash (h : string) (store : list RefreshTokenRecord)
    : option RefreshTokenRecord :=
  List.find (fun r => String.eqb (tokenHash r) h) store.

(** Update of the record [findByHash] finds. *)
Fixpoint updateByHash (h : string) (f : RefreshTokenRecord -> RefreshTokenRecord)
    (store : list RefreshTokenRecord) : list RefreshTokenRecord :=
  match store with
  | [] => []
  | r :: rest =>
      if String.eqb (tokenHash r) h then f r :: rest
      else r :: updateByHash h f rest
  end.

(** Modelled from the spec: the revocation of a user's sessions, a bulk
    update of the store keyed by user. *)
Definition revokeAllForUser (now : Z) (uid : nat) (store : list RefreshTokenRecord)
    : list RefreshTokenRecord :=
  map (fun r => if Nat.eqb (userId r) uid then revoke now r else r) store.

Section Protocol.
Context `{TokenIssuer}.

Definition newRecord (now : Z) (newId uid : nat) (raw : string) : RefreshTokenRecord :=
  {| id := newId; userId := uid; tokenHash := hashToken raw;
     issuedAt := now; expiresAt := now + refreshLifetime;
     revokedAt := None; replacedByTokenId := None |}.

(** Modelled from the spec: [issuePair] of the Token Issuer (the auth
    service is not among the sources).  The raw refresh token [raw] and the
    id [newId] are what the random source and the store hand out; only the
    hash of [raw] is persisted. *)
Definition issuePair (now : Z) (uid : nat) (raw : string) (newId : nat)
    (store : list RefreshTokenRecord) : TokenPair * list RefreshTokenRecord :=
  ({| accessToken := accessTokenFor uid now; refreshToken := raw |},
   (store ++ [newRecord now newId uid raw])%list).

(** Modelled from the spec: [refresh] of the Rotation Protocol (the auth
    service is not among the sources), steps (1) to (5) as one transition of
    the store: look the hash up; [TokenInvalid] when there is no record;
    [TokenExpired] past [expiresAt]; [TokenReuseDetected] on a ROTATED or
    REVOKED record, revoking every record of the user; otherwise mark the
    record ROTATED, create the ACTIVE successor and return the new pair. *)
Definition refresh (now : Z) (rawToken newRaw : string) (newId : nat)
    (store : list RefreshTokenRecord)
    : Result TokenPair * list RefreshTokenRecord :=
  match findByHash (hashToken rawToken) store with
  | None => (Err TokenInvalid, store)
  | Some r =>
      if expiresAt r <=? now then (Err TokenExpired, store)
      else
        match stateOf now r with
        | ROTATED | REVOKED =>
            (Err TokenReuseDetected, revokeAllForUser now (userId r) store)
        | _ =>
            let '(issued, store') :=
              issuePair now (userId r) newRaw newId
                (updateByHash (hashToken rawToken) (rotate now newId) store) in
            (Ok issued, store')
        end
  end.

(** Modelled from the spec: [logout] of the Rotation Protocol (the auth
    service is not among the sources): marks the matching record REVOKED;
    an already revoked or unknown token is a success that changes nothing. *)
Definition logout (now : Z) (rawToken : string) (store : list RefreshTokenRecord)
    : Result unit * list RefreshTokenRecord :=
  match findByHash (hashToken rawToken) store with
  | None => (Ok tt, store)
  | Some r =>
      match revokedAt r with
      | Some _ => (Ok tt, store)
      | None => (Ok tt, updateByHash (hashToken rawToken) (setRevoked now) store)
      end
  end.

(** Modelled from the spec: the reply of POST /auth/logout, 200 with
    [data: null]. *)
Definition logoutReply `{ErrorText} (result : Result unit) : Reply :=
  match result with
  | Ok _ => success 200 Json.JNull
  | Err e => failure e
  end.

(** Modelled from the spec: the reply of POST /auth/refresh, 200 with the
    new pair, 401 otherwise. *)
Definition refreshReply `{ErrorText} (result : Result TokenPair) : Reply :=
  match result with
  | Ok issued =>
      success 200 (Json.JObj [("accessToken", Json.JStr (accessToken issued));
                              ("refreshToken", Json.JStr (refreshToken issued))])
  | Err e => failure e
  end.

End Protocol.

(** An issuer for running examples: seven-day refresh tokens. *)
Definition toyIssuer : TokenIssuer :=
  {| hashToken := fun raw => "sha256:" ++ raw;
     accessTokenFor := fun uid now => "jwt";
     refreshLifetime := 604800000 |}.

(** A session of user 7: login at time 0 with refresh token 'old', rotated
    one day later into 'new'. *)
Definition afterLogin : list RefreshTokenRecord :=
  snd (@issuePair toyIssuer 0 7 "old" 1 []).

Definition afterRotation : list RefreshTokenRecord :=
  snd (@refresh toyIssuer 86400000 "old" "new" 2 afterLogin).

Definition rotatedRecord : RefreshTokenRecord :=
  {| id := 1; userId := 7; tokenHash := "sha256:old";
     issuedAt := 0; expiresAt := 604800000;
     revokedAt := Some 86400000; replacedByTokenId := Some 2%nat |}.

Definition successorRecord : RefreshTokenRecord :=
  {| id := 2; userId := 7; tokenHash := "sha256:new";
     issuedAt := 86400000; expiresAt := 691200000;
     revokedAt := None; replacedByTokenId := None |}.

End Rotation.

(* ===================================================================== *)
(** ** Credential Validator and the auth handlers *)
(* ===================================================================== *)

Module Credentials.
Import Envelope Routes.

(** The slow salted one-way function and its constant-time comparison. *)
Class PasswordHasher := {
  hashPassword : string -> string -> string;
  verifyPassword : string -> string -> bool
}.

(** Modelled from the spec: the rows of the user store (the Prisma schema is
    not among the sources). *)
Record User : Type := {
  id : nat;
  email : string;
  name : option string;
  passwordHash : string;
  role : Role;
  emailVerified : bool;
  createdAt : Z;
  updatedAt : Z
}.

(** Emails are compared without regard to case. *)
Definition findByEmail (e : string) (users : list User) : option User :=
  List.find
    (fun u => String.eqb (Text.toLowerCase (email u)) (Text.toLowerCase e)) users.

Definition findById (uid : nat) (users : list User) : option User :=
  List.find (fun u => Nat.eqb (id u) uid) users.

Section Validator.
Context `{PasswordHasher}.

(** Modelled from the spec: [register] of the Credential Validator (the auth
    service is not among the sources): [DuplicateEmail] when the email is
    taken, otherwise the new row, its password stored hashed.  [newId] and
    [salt] are what the store and the random source hand out. *)
Definition register (now : Z) (newId : nat) (salt : string)
    (e password : string) (displayName : option string) (users : list User)
    : Result User * list User :=
  match findByEmail e users with
  | Some _ => (Err DuplicateEmail, users)
  | None =>
      let u := {| id := newId; email := e; name := displayName;
                  passwordHash := hashPassword salt password;
                  role := USER; emailVerified := false;
                  createdAt := now; updatedAt := now |} in
      (Ok u, (users ++ [u])%list)
  end.

(** Modelled from the spec: [login] of the Credential Validator (the auth
    service is not among the sources): [InvalidCredentials] when the email
    is absent or the hash comparison fails. *)
Definition login (e password : string) (users : list User) : Result User :=
  match findByEmail e users with
  | None => Err InvalidCredentials
  | Some u =>
      if verifyPassword password (passwordHash u) then Ok u
      else Err InvalidCredentials
  end.

End Validator.

Definition roleName (r : Role) : string :=
  match r with
  | GUEST => "GUEST"
  | USER => "USER"
  | ADMIN => "ADMIN"
  end.

(** Modelled from the spec: the user object handed to callers (the auth
    controller is not among the sources): the user without its hash, under
    the property names of the GET /auth/me response schema.  Timestamps are
    kept as epoch milliseconds. *)
Definition userResponse (u : User) : Json.t :=
  Json.JObj
    [("id", Json.JNum (Z.of_nat (id u)));
     ("email", Json.JStr (email u));
     ("name", match name u with Some n => Json.JStr n | None => Json.JNull end);
     ("role", Json.JStr (roleName (role u)));
     ("emailVerified", Json.JBool (emailVerified u));
     ("createdAt", Json.JNum (createdAt u));
     ("updatedAt", Json.JNum (updatedAt u))].

(** The two durable stores of the core. *)
Record State : Type := {
  users : list User;
  tokens : list Rotation.RefreshTokenRecord
}.

(** What one request takes from the clock, the store's id sequence and the
    random source. *)
Record Fresh : Type := {
  now : Z;
  newUserId : nat;
  newTokenId : nat;
  salt : string;
  rawRefresh : string
}.

Section Handlers.
Context `{ErrorText} `{PasswordHasher} `{Rotation.TokenIssuer}.

Definition authData (u : User) (issued : Rotation.TokenPair) : Json.t :=
  Json.JObj
    [("user", userResponse u);
     ("accessToken", Json.JStr (Rotation.accessToken issued));
     ("refreshToken", Json.JStr (Rotation.refreshToken issued))].

(** Modelled from the spec: the handlers of [auth.controller] (not among the
    sources).  POST /auth/register: 201 with user and tokens, 409 on a
    duplicate email. *)
Definition registerHandler (f : Fresh) (e password : string)
    (displayName : option string) (st : State) : Reply * State :=
  match register (now f) (newUserId f) (salt f) e password displayName (users st) with
  | (Err err, _) => (failure err, st)
  | (Ok u, users') =>
      let '(issued, tokens') :=
        Rotation.issuePair (now f) (id u) (rawRefresh f) (newTokenId f) (tokens st) in
      (success 201 (authData u issued), {| users := users'; tokens := tokens' |})
  end.

(** Modelled from the spec: the handler of POST /auth/login
    ([auth.controller], not among the sources): 200 with user and tokens,
    401 on invalid credentials. *)
Definition loginHandler (f : Fresh) (e password : string) (st : State)
    : Reply * State :=
  match login e password (users st) with
  | Err err => (failure err, st)
  | Ok u =>
      let '(issued, tokens') :=
        Rotation.issuePair (now f) (id u) (rawRefresh f) (newTokenId f) (tokens st) in
      (success 200 (authData u issued), {| users := users st; tokens := tokens' |})
  end.

(** Modelled from the spec: the handler of GET /auth/me ([auth.controller],
    not among the sources), behind [authenticate]: 200 with the profile of
    the token's subject, 404 when the user is gone. *)
Definition getMe (subject : nat) (st : State) : Reply :=
  match findById subject (users st) with
  | Some u => success 200 (userResponse u)
  | None => failure NotFound
  end.

End Handlers.

(** A hasher for running examples. *)
Definition toyHasher : PasswordHasher :=
  {| hashPassword := fun salt password => salt ++ "$" ++ password;
     verifyPassword := fun password stored =>
       String.eqb stored ("s1$" ++ password) |}.

(** One registered user, as [register] stores her. *)
Definition alice : User :=
  {| id := 7; email := "Alice@example.com"; name := Some "Alice";
     passwordHash := "s1$correct horse"; role := USER; emailVerified := false;
     createdAt := 0; updatedAt := 0 |}.

Definition oneUser : State := {| users := [alice]; tokens := [] |}.

End Credentials.

(* ===================================================================== *)
(** ** bin/create-tigra.js *)
(* ===================================================================== *)

Module Cli.
Import Text.

(** *** Case transformation utilities *)

Definition toKebabCase (str : string) : string :=
  stripEnds "-" (replaceRuns isLowerAlnum "-" (toLowerCase str) false).

Definition toSnakeCase (str : string) : string :=
  stripEnds "_" (replaceRuns isLowerAlnum "_" (toLowerCase str) false).

(** After the runs are replaced by spaces, each word (the text between two
    spaces) gets its first character in upper case and the rest in lower
    case; splitting on the space and joining with it keeps the spaces. *)
Fixpoint capitalizeWords (s : string) (atStart : bool) : string :=
  match s with
  | EmptyString => EmptyString
  | String c rest =>
      if Ascii.eqb c " " then String c (capitalizeWords rest true)
      else String (if atStart then upperAscii c else lowerAscii c)
                  (capitalizeWords rest false)
  end.

Definition toTitleCase (str : string) : string :=
  capitalizeWords (replaceRuns isAlnum " " str false) true.

(** *** Template variable replacement *)

Record Config : Type := {
  projectName : string;
  projectNameSnake : string;
  projectDisplayName : string;
  projectDescription : string;
  databaseName : string;
  databaseUser : string;
  databasePassword : string;
  authorName : string;
  jwtSecret : string
}.

Definition replacements (config : Config) : list (string * string) :=
  [ ("{{PROJECT_NAME}}", projectName config);
    ("{{PROJECT_NAME_SNAKE}}", projectNameSnake config);
    ("{{PROJECT_DISPLAY_NAME}}", projectDisplayName config);
    ("{{PROJECT_DESCRIPTION}}", projectDescription config);
    ("{{DATABASE_NAME}}", databaseName config);
    ("{{DATABASE_USER}}", databaseUser config);
    ("{{DATABASE_PASSWORD}}", databasePassword config);
    ("{{AUTHOR_NAME}}", authorName config);
    ("{{JWT_SECRET}}", jwtSecret config) ].

Definition replaceTemplateVariables (content : string) (config : Config) : string :=
  fold_left (fun result kv => replaceAll (fst kv) (snd kv) result)
            (replacements config) content.

Definition filesToProcess : list string :=
  [ "CLAUDE.md";
    "server/package.json";
    "server/.env.example";
    "server/docker-compose.yml";
    "server/README.md";
    "server/src/config/env.ts";
    "server/prisma/schema.prisma";
    "server/Tigra-API.postman_collection.json" ].

Definition excludePatterns : list string :=
  [ "node_modules"; "dist"; ".git"; "package-lock.json"; "pnpm-lock.yaml";
    "yarn.lock"; "coverage"; "build-errors.txt"; ".env.local"; ".env";
    "*.tsbuildinfo"; "tsconfig.build.tsbuildinfo"; ".DS_Store"; "Thumbs.db" ].

(** *** Paths and the file system *)

(** POSIX paths: [path.sep] is the slash. *)
Definition sep : string := "/".

Definition joinPath (dir name : string) : string :=
  if String.eqb name "" then dir
  else if endsWith sep dir then dir ++ name
  else dir ++ sep ++ name.

Definition isUnder (dir p : string) : bool :=
  String.eqb p dir || startsWith (dir ++ sep) p.

(** [path.relative(dir, p)] for a [p] at or below [dir]. *)
Definition relative (dir p : string) : string :=
  if String.eqb p dir then "" else dropChars (String.length dir + 1) p.

Fixpoint lastSegment (p acc : string) : string :=
  match p with
  | EmptyString => acc
  | String c rest =>
      if Ascii.eqb c "/" then lastSegment rest "" else lastSegment rest (acc ++ String c "")
  end.

Definition basename (p : string) : string := lastSegment p "".

(** The paths from the first segment of [rel] down to [rel] itself. *)
Fixpoint pathPrefixes (rel acc : string) : list string :=
  match rel with
  | EmptyString => [acc]
  | String c rest =>
      if Ascii.eqb c "/" then acc :: pathPrefixes rest (acc ++ sep)
      else pathPrefixes rest (acc ++ String c "")
  end.

Inductive Entry : Type :=
| File (content : string)
| Dir.

Definition existsSync (p : string) (fs : gmap string Entry) : bool :=
  match fs !! p with
  | Some _ => true
  | None => false
  end.

(** [filterFunc] of the action, for the template at [templateDir]. *)
Definition filterFunc (templateDir src : string) : bool :=
  let relativePath := relative templateDir src in
  let base := basename src in
  if String.eqb relativePath "" then true
  else if String.eqb base ".env" && negb (endsWith ".env.example" src) then false
  else negb (existsb
               (fun pattern =>
                  String.eqb relativePath pattern
                  || includes (sep ++ pattern) relativePath
                  || includes (pattern ++ sep) relativePath
                  || startsWith (pattern ++ sep) relativePath)
               excludePatterns).

(** [fs.copy] walks the tree from the root and does not enter what the
    filter refuses: an entry is copied when the filter accepts the root,
    every directory on the way down and the entry itself. *)
Definition reached (templateDir p : string) : bool :=
  isUnder templateDir p
  && filterFunc templateDir templateDir
  && (String.eqb p templateDir
      || forallb (fun pre => filterFunc templateDir (templateDir ++ sep ++ pre))
                 (pathPrefixes (relative templateDir p) "")).

Definition copyTree (templateDir targetDir : string) (fs : gmap string Entry)
    : gmap string Entry :=
  list_to_map
    (omap (fun pe : string * Entry =>
             if reached templateDir (fst pe)
             then Some (targetDir ++ dropChars (String.length templateDir) (fst pe), snd pe)
             else None)
          (map_to_list fs))
  ∪ fs.

(** *** The action *)

Inductive Effect : Type :=
| ConsoleLog (line : string)
| ConsoleError (line : string)
| Prompt (question : string)
| SpinnerStart
| SpinnerSucceed
| SpinnerFail
| FsCopy (src dest : string)
| FsReadFile (path : string)
| FsWriteFile (path content : string)
| ProcessExit (code : Z).

(** What one run is given: the command line, what the user types at the
    prompts ([None] when a prompt is cancelled), the characters
    [generateSecureSecret] draws, and where the process and the package
    live. *)
Record Invocation : Type := {
  projectNameArg : option string;
  yes : bool;
  promptedName : option string;
  answeredDisplayName : option string;
  answeredDescription : option string;
  answeredAuthor : option string;
  secret : string;
  cwd : string;
  templateDir : string
}.

Record Run : Type := {
  trace : list Effect;
  fsAfter : gmap string Entry;
  exitCode : option Z
}.

(** [!value]: undefined and the empty string. *)
Definition given (value : option string) : option string :=
  match value with
  | Some v => if String.eqb v "" then None else Some v
  | None => None
  end.

Definition orEmpty (value : option string) : string := default "" (given value).

Definition banner : list Effect :=
  [ ConsoleLog ""; ConsoleLog "  Create Tigra";
    ConsoleLog "  Production-ready Fastify + TypeScript + Prisma"; ConsoleLog "" ].

Definition exitWith (effects : list Effect) (fs : gmap string Entry) : Run :=
  {| trace := (effects ++ [ProcessExit 1])%list; fsAfter := fs; exitCode := Some 1 |}.

(** The name the run works with, before it is kebab-cased, and the prompt
    it took to get it. *)
Definition chosenName (inv : Invocation) : list Effect * option string :=
  match given (projectNameArg inv) with
  | Some n => ([], Some n)
  | None => ([Prompt "Project name:"], given (promptedName inv))
  end.

Definition defaults (inv : Invocation) (name displayName description author : string)
    : Config :=
  {| projectName := name;
     projectNameSnake := toSnakeCase name;
     projectDisplayName := displayName;
     projectDescription := description;
     databaseName := toSnakeCase name ++ "_db";
     databaseUser := "root";
     databasePassword := "password";
     authorName := author;
     jwtSecret := secret inv |}.

Definition gatherConfig (inv : Invocation) (name : string)
    : list Effect * option Config :=
  if yes inv
  then ([], Some (defaults inv name (toTitleCase name)
                    "A production-ready REST API server" ""))
  else
    ([Prompt "Display name:"; Prompt "Description (optional):";
      Prompt "Author name (optional):"],
     match given (answeredDisplayName inv) with
     | None => None
     | Some displayName =>
         Some (defaults inv name displayName
                 (orEmpty (answeredDescription inv)) (orEmpty (answeredAuthor inv)))
     end).

(** The loop over [filesToProcess]; reading a directory throws. *)
Fixpoint processFiles (files : list string) (targetDir : string) (config : Config)
    (fs : gmap string Entry) : list Effect * gmap string Entry * bool :=
  match files with
  | [] => ([], fs, true)
  | file :: rest =>
      let filePath := targetDir ++ sep ++ file in
      match fs !! filePath with
      | None => processFiles rest targetDir config fs
      | Some Dir => ([FsReadFile filePath], fs, false)
      | Some (File content) =>
          let replaced := replaceTemplateVariables content config in
          let '(effects, fs', ok) :=
            processFiles rest targetDir config (<[filePath := File replaced]> fs) in
          ((FsReadFile filePath :: FsWriteFile filePath replaced :: effects)%list, fs', ok)
      end
  end.

Definition nextSteps (name : string) : list Effect :=
  [ ConsoleLog ("  Done! Created " ++ name);
    ConsoleLog ("    cd " ++ name ++ "/server");
    ConsoleLog ("    Containers will be named: " ++ name ++ "-mysql, " ++ name
                ++ "-redis, etc.") ].

(** The [try] block: copy the template, substitute the variables.  A missing
    template directory and a target inside the template make [fs.copy]
    throw; other I/O failures are left out, and the text of [error.message]
    is the library's. *)
Definition createProject (inv : Invocation) (name targetDir : string)
    (config : Config) (fs : gmap string Entry) : Run :=
  if negb (existsSync (templateDir inv) fs) || isUnder (templateDir inv) targetDir
  then {| trace := [SpinnerStart; FsCopy (templateDir inv) targetDir; SpinnerFail;
                    ConsoleError "copy failed"; ProcessExit 1];
          fsAfter := fs; exitCode := Some 1 |}
  else
    let copied := copyTree (templateDir inv) targetDir fs in
    let '(effects, fs', ok) := processFiles filesToProcess targetDir config copied in
    if ok
    then {| trace := ([SpinnerStart; FsCopy (templateDir inv) targetDir] ++ effects
                      ++ [SpinnerSucceed] ++ nextSteps name)%list;
            fsAfter := fs'; exitCode := None |}
    else {| trace := ([SpinnerStart; FsCopy (templateDir inv) targetDir] ++ effects
                      ++ [SpinnerFail; ConsoleError "read failed"; ProcessExit 1])%list;
            fsAfter := fs'; exitCode := Some 1 |}.

(** [program.action(async (projectNameArg, options) => ...)], every prompt
    it shows answered or cancelled; [parse] below has the run in which a
    prompt gets no answer at all. *)
Definition action (inv : Invocation) (fs : gmap string Entry) : Run :=
  match chosenName inv with
  | (asked, None) => exitWith (banner ++ asked ++ [ConsoleLog "Cancelled."])%list fs
  | (asked, Some typed) =>
      let name := toKebabCase typed in
      let targetDir := joinPath (cwd inv) name in
      if existsSync targetDir fs
      then exitWith
             (banner ++ asked
              ++ [ConsoleLog ("Error: Directory " ++ dq ++ name ++ dq
                              ++ " already exists.")])%list fs
      else
        match gatherConfig inv name with
        | (questions, None) =>
            exitWith (banner ++ asked ++ questions ++ [ConsoleLog "Cancelled."])%list fs
        | (questions, Some config) =>
            let run := createProject inv name targetDir config fs in
            {| trace := (banner ++ asked ++ questions ++ trace run)%list;
               fsAfter := fsAfter run;
               exitCode := exitCode run |}
        end
  end.

(** Does an effect write to the file system? *)
Definition writes (e : Effect) : bool :=
  match e with
  | FsCopy _ _ | FsWriteFile _ _ => true
  | _ => false
  end.

(** A run that stops at a prompt nobody answers: what was printed so far,
    nothing written, no exit code set. *)
Definition pendingAt (effects : list Effect) (fs : gmap string Entry) : Run :=
  {| trace := effects; fsAfter := fs; exitCode := None |}.

(** [program.parse()], the last line of the file: it starts the action and
    does not wait for it.  With standard input open every prompt is answered
    or cancelled and the action runs to its end.  With standard input
    closed the first [await prompts(...)] the action reaches never
    resolves: node has nothing left to do and ends with code 0, no
    [process.exit] called, nothing created.  The action reaches the prompt
    for the name when no name is given, and the prompt for the display name
    when a name is given, its directory does not exist and [--yes] is not
    set; otherwise it asks nothing. *)
Definition parse (stdinOpen : bool) (inv : Invocation) (fs : gmap string Entry)
    : Run :=
  if stdinOpen then action inv fs
  else
    match given (projectNameArg inv) with
    | None => pendingAt (banner ++ [Prompt "Project name:"])%list fs
    | Some typed =>
        if existsSync (joinPath (cwd inv) (toKebabCase typed)) fs || yes inv
        then action inv fs
        else pendingAt (banner ++ [Prompt "Display name:"])%list fs
    end.

(** A small installation for running examples. *)
Definition sampleFs : gmap string Entry :=
  list_to_map
    [ ("/pkg/template", Dir);
      ("/pkg/template/CLAUDE.md", File "# {{PROJECT_DISPLAY_NAME}}");
      ("/pkg/template/server", Dir);
      ("/pkg/template/server/package.json", File "name: {{PROJECT_NAME}}");
      ("/pkg/template/server/node_modules", Dir);
      ("/pkg/template/server/node_modules/x.js", File "x");
      ("/home/dev", Dir);
      ("/home/dev/my-app", Dir);
      ("/home/dev/my-app/notes.txt", File "keep me") ].

Definition sampleInvocation (name : string) : Invocation :=
  {| projectNameArg := Some name; yes := true; promptedName := None;
     answeredDisplayName := None; answeredDescription := None;
     answeredAuthor := None; secret := "0123456789";
     cwd := "/home/dev"; templateDir := "/pkg/template" |}.

End Cli.

(* ===================================================================== *)
(** ** Histories of schema conversions *)
(* ===================================================================== *)

Module SchemaCalls.
Import SwaggerSchemas.

Section WithSchemas.
Context {ZodTypeAny : Type}.

Definition callName (c : @Call ZodTypeAny) : string :=
  match c with
  | CallToJsonSchema _ name | CallGetDefinition _ name => name
  end.

Definition callSchema (c : @Call ZodTypeAny) : ZodTypeAny :=
  match c with
  | CallToJsonSchema schema _ | CallGetDefinition schema _ => schema
  end.

(** The schema of the earliest call made under [name]. *)
Fixpoint firstCalled (name : string) (calls : list (@Call ZodTypeAny))
    : option ZodTypeAny :=
  match calls with
  | [] => None
  | c :: rest =>
      if String.eqb (callName c) name then Some (callSchema c)
      else firstCalled name rest
  end.

End WithSchemas.

End SchemaCalls.

(* ===================================================================== *)
(** ** Shapes of strings *)
(* ===================================================================== *)

Module Shape.

(** Every character of [s] satisfies [p]. *)
Fixpoint allChars (p : ascii -> bool) (s : string) : bool :=
  match s with
  | EmptyString => true
  | String c rest => p c && allChars p rest
  end.

Definition firstChar (s : string) : option ascii :=
  match s with
  | EmptyString => None
  | String c _ => Some c
  end.

Fixpoint lastChar (s : string) : option ascii :=
  match s with
  | EmptyString => None
  | String c EmptyString => Some c
  | String _ rest => lastChar rest
  end.

(** No two neighbouring characters of [s] are both [sep]. *)
Fixpoint noAdjacent (sep : ascii) (s : string) : bool :=
  match s with
  | EmptyString => true
  | String c rest =>
      negb (Ascii.eqb c sep
            && match rest with
               | String d _ => Ascii.eqb d sep
               | EmptyString => false
               end)
      && noAdjacent sep rest
  end.

(** A name made of [[a-z0-9]] words joined by single [sep]s. *)
Definition joined (sep : ascii) (s : string) : bool :=
  allChars (fun c => Text.isLowerAlnum c || Ascii.eqb c sep) s
  && noAdjacent sep s
  && negb (bool_decide (firstChar s = Some sep))
  && negb (bool_decide (lastChar s = Some sep)).

(** [s] without its last character. *)
Fixpoint dropLast (s : string) : string :=
  match s with
  | EmptyString => EmptyString
  | String c EmptyString => EmptyString
  | String c rest => String c (dropLast rest)
  end.

(** [s] with every [a] turned into [b]. *)
Fixpoint swapChar (a b : ascii) (s : string) : string :=
  match s with
  | EmptyString => EmptyString
  | String c rest => String (if Ascii.eqb c a then b else c) (swapChar a b rest)
  end.

End Shape.

(* ===================================================================== *)
(** ** bin/create-tigra.js: [generateSecureSecret] *)
(* ===================================================================== *)

Module Secret.

Definition chars : string :=
  "ABCDEFGHIJKLMNOPQRSTUVWXYZabcdefghijklmnopqrstuvwxyz0123456789!@#$%^&*".

(** [chars.charAt(i)]: the empty string out of range. *)
Definition charAt (i : nat) (s : string) : string :=
  match String.get i s with
  | Some c => String c EmptyString
  | None => EmptyString
  end.

(** The loop of [generateSecureSecret(length)], iterations [i], [i + 1], ...
    [draw i] is what [Math.floor(Math.random() * chars.length)] gives in
    iteration [i]. *)
Fixpoint generateFrom (draw : nat -> nat) (i remaining : nat) (result : string)
    : string :=
  match remaining with
  | O => result
  | S k => generateFrom draw (S i) k (result ++ charAt (draw i) chars)
  end.

Definition generateSecureSecret (length : nat) (draw : nat -> nat) : string :=
  generateFrom draw 0 length "".

End Secret.

(* ===================================================================== *)
(** ** scripts/setup-env.js *)
(* ===================================================================== *)

Module SetupEnv.
Import Cli.

Definition ENV_FILE (ROOT_DIR : string) : string := joinPath ROOT_DIR ".env".
Definition EXAMPLE_ENV_FILE (ROOT_DIR : string) : string :=
  joinPath ROOT_DIR "example.env".

(** How [setupEnv] ends: the early return, the two [process.exit(1)], or the
    copy. *)
Inductive Ending : Type :=
| AlreadyExists
| ExampleMissing
| Created
| CopyFailed.

Record Result : Type := {
  ending : Ending;
  fsAfter : gmap string Entry;
  exitCode : option Z
}.

(** [setupEnv()].  [fs.copyFileSync] on a directory throws; other I/O
    failures are left out. *)
Definition setupEnv (ROOT_DIR : string) (fs : gmap string Entry) : Result :=
  if existsSync (ENV_FILE ROOT_DIR) fs
  then {| ending := AlreadyExists; fsAfter := fs; exitCode := None |}
  else
    match fs !! EXAMPLE_ENV_FILE ROOT_DIR with
    | None => {| ending := ExampleMissing; fsAfter := fs; exitCode := Some 1 |}
    | Some Dir => {| ending := CopyFailed; fsAfter := fs; exitCode := Some 1 |}
    | Some (File content) =>
        {| ending := Created;
           fsAfter := <[ENV_FILE ROOT_DIR := File content]> fs;
           exitCode := None |}
    end.

End SetupEnv.

(* ===================================================================== *)
(** ** What the route files document *)
(* ===================================================================== *)

Module RouteDocs.
Import Routes.

(** The routes whose [schema] has [security: [{ bearerAuth: [] }]]. *)
Definition authSecurity : list (Method * string) := [ (GET, "/me") ].

Definition adminSecurity : list (Method * string) :=
  [ (GET, "/users"); (GET, "/users/:id"); (DELETE, "/users/:id");
    (POST, "/users/:id/change-role"); (POST, "/users/:id/verify-email");
    (GET, "/stats") ].

Definition resourceSecurity : list (Method * string) :=
  [ (GET, "/my"); (POST, "/"); (PATCH, "/:id"); (DELETE, "/:id") ].

Definition documentsBearerAuth (security : list (Method * string)) (r : Route) : bool :=
  existsb (fun mu => methodEqb (fst mu) (method r) && String.eqb (snd mu) (url r))
          security.

(** The three plugins with what they document, as [buildApp] registers
    them. *)
Definition plugins : list (list Route * list (Method * string)) :=
  [ (authRoutes, authSecurity);
    (resourceRoutes, resourceSecurity);
    (adminRoutes, adminSecurity) ].

(** The method and url under which the router files a route. *)
Definition routeKey (r : Route) : Method * string := (method r, url r).

(** The routes of the three plugins in the order [buildApp] registers them,
    each with its prefix. *)
Definition moduleRoutes (API_PREFIX : string) : list Route := buildApp API_PREFIX [].

#[global] Instance Method_eq_dec : EqDecision Method.
Proof. solve_decision. Defined.

End RouteDocs.

(* ===================================================================== *)
(** ** More example runs *)
(* ===================================================================== *)

Module Samples.
Import Cli.

(** A run without [--yes] in which the prompt for the display name is
    cancelled. *)
Definition cancelledAtDisplayName : Invocation :=
  {| projectNameArg := Some "New App"; yes := false; promptedName := None;
     answeredDisplayName := None; answeredDescription := None;
     answeredAuthor := None; secret := "0123456789";
     cwd := "/home/dev"; templateDir := "/pkg/template" |}.

Definition sampleConfig : Config :=
  {| projectName := "new-app"; projectNameSnake := "new_app";
     projectDisplayName := "New App"; projectDescription := "";
     databaseName := "new_app_db"; databaseUser := "root";
     databasePassword := "password"; authorName := ""; jwtSecret := "0123456789" |}.

(** A generated project that has its example.env but no .env yet. *)
Definition generatedProject : gmap string Entry :=
  list_to_map
    [ ("/srv/app", Dir);
      ("/srv/app/example.env", File "JWT_SECRET=change-me");
      ("/srv/app/package.json", File "{}") ].

End Samples.

(* ===================================================================== *)
(** * Properties *)
(* ===================================================================== *)

Section SwaggerSchemasFacts.
Import SwaggerSchemas.
Context {ZodTypeAny : Type} `{!Converter ZodTypeAny}.

Lemma toJsonSchema_hit schema name (cache : gmap string Json.t) cached :
  cache !! name = Some cached ->
  toJsonSchema schema name cache = (cached, cache).
Proof. intros Hc. unfold toJsonSchema. by rewrite Hc. Qed.

Lemma toJsonSchema_caches schema name (cache : gmap string Json.t) :
  snd (toJsonSchema schema name cache) !! name
  = Some (fst (toJsonSchema schema name cache)).
Proof.
  unfold toJsonSchema. destruct (cache !! name) as [cached|] eqn:Hc; simpl.
  - exact Hc.
  - apply lookup_insert_eq.
Qed.

(** An entry, once in the cache, is never overwritten. *)
Lemma step_keeps (cache : gmap string Json.t) c name cached :
  cache !! name = Some cached -> step cache c !! name = Some cached.
Proof.
  intros Hc.
  assert (Hto : forall s n, snd (toJsonSchema s n cache) !! name = Some cached).
  { intros s n. unfold toJsonSchema.
    destruct (cache !! n) as [j|] eqn:Hn; simpl; [done|].
    rewrite lookup_insert_ne; [done|]. intros ->. congruence. }
  destruct c as [s n|s n]; simpl; [apply Hto|].
  unfold getDefinition. specialize (Hto s n).
  by destruct (toJsonSchema s n cache).
Qed.

Lemma run_keeps calls (cache : gmap string Json.t) name cached :
  cache !! name = Some cached -> run calls cache !! name = Some cached.
Proof.
  revert cache. induction calls as [|c calls IH]; intros cache Hc; [done|].
  simpl. apply IH. by apply step_keeps.
Qed.

(** C10. Once [toJsonSchema s1 n] has returned [j1], every later call
    [toJsonSchema s2 n], whatever calls were made in between and whatever
    [s2] is, returns that same [j1] and leaves the cache alone;
    [getDefinition s2 n] is computed from [j1]; and when [n] had not been seen
    before the first call, [j1] is the schema generated from [s1]. *)
Theorem toJsonSchema_determined_by_name
    (s1 s2 : ZodTypeAny) (n : string) (cache cache1 : gmap string Json.t)
    (j1 : Json.t) (between : list Call) :
  toJsonSchema s1 n cache = (j1, cache1) ->
  let later := run between cache1 in
  toJsonSchema s2 n later = (j1, later)
  /\ getDefinition s2 n later = (definitionOf n j1, later)
  /\ (cache !! n = None -> j1 = zodToJsonSchema s1 n).
Proof.
  intros Hfirst later.
  assert (Hin : cache1 !! n = Some j1).
  { pose proof (toJsonSchema_caches s1 n cache) as Hc.
    by rewrite Hfirst in Hc. }
  assert (Hlater : later !! n = Some j1) by by apply run_keeps.
  assert (Hsecond : toJsonSchema s2 n later = (j1, later))
    by by apply toJsonSchema_hit.
  split; [exact Hsecond|]. split.
  - unfold getDefinition. by rewrite Hsecond.
  - intros Hfresh. unfold toJsonSchema in Hfirst. rewrite Hfresh in Hfirst.
    by inversion Hfirst.
Qed.

End SwaggerSchemasFacts.

(** C10 at work: 'PaginationSchema' first converted from the pagination
    schema, then asked for again with another schema after an unrelated call. *)
Lemma toJsonSchema_determined_by_name_witness :
  @SwaggerSchemas.toJsonSchema _ SwaggerSchemas.toyConverter
    ["search"] "PaginationSchema"
    (@SwaggerSchemas.run _ SwaggerSchemas.toyConverter
       [SwaggerSchemas.CallToJsonSchema ["id"] "UserIdSchema"]
       (snd (@SwaggerSchemas.toJsonSchema _ SwaggerSchemas.toyConverter
               ["page"; "limit"] "PaginationSchema" ∅)))
  = (SwaggerSchemas.toyConvert ["page"; "limit"] "PaginationSchema",
     @SwaggerSchemas.run _ SwaggerSchemas.toyConverter
       [SwaggerSchemas.CallToJsonSchema ["id"] "UserIdSchema"]
       (snd (@SwaggerSchemas.toJsonSchema _ SwaggerSchemas.toyConverter
               ["page"; "limit"] "PaginationSchema" ∅))).
Proof.
  destruct (@toJsonSchema_determined_by_name _ SwaggerSchemas.toyConverter
              ["page"; "limit"] ["search"] "PaginationSchema" ∅ _ _
              [SwaggerSchemas.CallToJsonSchema ["id"] "UserIdSchema"]
              (surjective_pairing _))
    as (Hsame & _ & _).
  rewrite Hsame. reflexivity.
Defined.

(* ===================================================================== *)
(** ** Guard chains of the registered routes *)
(* ===================================================================== *)

Section GuardChains.
Import Envelope Routes Lifecycle RateLimitGate Server.
Context `{ErrorText} `{AccessCodec} `{Validator}.
Variable guard : Z -> Guard -> Request -> HookResult.

Lemma elem_of_register plugin prefix (r : Route) :
  r ∈ register plugin prefix <->
  exists r0, r0 ∈ plugin /\ r = withPrefix prefix r0.
Proof.
  unfold register. rewrite list_elem_of_fmap.
  split; intros (r0 & ? & ?); by exists r0.
Qed.

Lemma dispatch_withPrefix now prefix (r : Route) req :
  dispatch guard now (withPrefix prefix r) req = dispatch guard now r req.
Proof. reflexivity. Qed.

(** The first hook that replies ends the chain: the hooks after it do not
    matter. *)
Lemma runPreHandlers_short_circuit now before g after req req' reply :
  runPreHandlers guard now before req = Continue req' ->
  guard now g req' = Halt reply ->
  runPreHandlers guard now (before ++ g :: after) req = Halt reply.
Proof.
  revert req. induction before as [|g0 before IH]; intros req Hbefore Hg; simpl in *.
  - injection Hbefore as ->. by rewrite Hg.
  - destruct (guard now g0 req) as [req0|reply0]; [|discriminate].
    by apply IH.
Qed.

Lemma runPreHandlers_pass now before after req req' :
  runPreHandlers guard now before req = Continue req' ->
  runPreHandlers guard now (before ++ after) req
  = runPreHandlers guard now after req'.
Proof.
  revert req. induction before as [|g0 before IH]; intros req Hbefore; simpl in *.
  - by injection Hbefore as ->.
  - destruct (guard now g0 req) as [req0|reply0]; [|discriminate].
    by apply IH.
Qed.

(** A request that does not conform to the route's schema is answered 400,
    whatever the hooks of the route are. *)
Lemma invalid_is_refused now (r : Route) req :
  validate r req = false ->
  dispatch guard now r req = Replied (failure ValidationError).
Proof. intros Hinvalid. unfold dispatch. by rewrite Hinvalid. Qed.

Lemma first_hook_halts now (r : Route) g after req reply :
  validate r req = true ->
  preHandler r = g :: after ->
  guard now g req = Halt reply ->
  dispatch guard now r req = Replied reply.
Proof.
  intros Hvalid Hchain Hg. unfold dispatch. rewrite Hvalid, Hchain. simpl.
  by rewrite Hg.
Qed.

Lemma no_hooks_invokes now (r : Route) req :
  preHandler r = [] ->
  dispatch guard now r req
  = if validate r req then Invoked (handler r) req
    else Replied (failure ValidationError).
Proof. intros Hchain. unfold dispatch. by rewrite Hchain. Qed.

(** What a request comes to, by the verdict of the rate-limit hook. *)
Lemma serve_outcome (g : Z -> Guard -> Request -> HookResult)
    globalLimit now (r : Route) req counters :
  fst (serve g globalLimit now r req counters)
  = match fst (onRequest globalLimit now r req counters) with
    | Limited _ => Replied (failure RateLimited)
    | Allowed => dispatch g now r req
    end.
Proof.
  unfold serve. destruct (onRequest globalLimit now r req counters) as [[|ms] c];
    reflexivity.
Qed.

Lemma admin_chain (r : Route) :
  r ∈ adminRoutes -> preHandler r = [authenticate; requireAdmin].
Proof. intros Hr. unfold adminRoutes in Hr. each_route Hr; reflexivity. Qed.

Lemma append_assoc (a b c : string) : ((a ++ b) ++ c = a ++ (b ++ c))%string.
Proof.
  induction a as [|x a IH]; [done|].
  change (String x ((a ++ b) ++ c) = String x (a ++ (b ++ c)))%string.
  by rewrite IH.
Qed.

Lemma prefix_append (p a b : string) :
  String.prefix (p ++ a) (p ++ b) = String.prefix a b.
Proof.
  induction p as [|x p IH]; [done|].
  change (String.prefix (String x (p ++ a)) (String x (p ++ b)) = String.prefix a b)%string.
  cbn [String.prefix]. by destruct (ascii_dec x x).
Qed.

(** Of the routes [buildApp] takes from the three route modules, the ones
    whose url lies under the admin prefix are those of [adminRoutes]. *)
Lemma under_admin_prefix API_PREFIX healthRoutes (r : Route) :
  r ∈ buildApp API_PREFIX healthRoutes ->
  r ∉ healthRoutes ->
  Text.startsWith (adminPrefix API_PREFIX) (url r) = true ->
  r ∈ register adminRoutes (adminPrefix API_PREFIX).
Proof.
  unfold buildApp. rewrite !elem_of_app.
  intros [Hhealth | [Hauth | [Hres | Hadmin]]] Hnot Hunder;
    [done | | | exact Hadmin]; exfalso.
  - apply elem_of_register in Hauth as (r0 & Hr0 & ->).
    unfold Text.startsWith, withPrefix, adminPrefix, authPrefix in Hunder.
    cbn [url] in Hunder. rewrite append_assoc, prefix_append in Hunder.
    unfold authRoutes in Hr0. each_route Hr0; discriminate Hunder.
  - apply elem_of_register in Hres as (r0 & Hr0 & ->).
    unfold Text.startsWith, withPrefix, adminPrefix, resourcesPrefix in Hunder.
    cbn [url] in Hunder. rewrite append_assoc, prefix_append in Hunder.
    unfold resourceRoutes in Hr0. each_route Hr0; discriminate Hunder.
Qed.

(** With the guards of the RBAC Evaluator, a request with a valid USER token
    that conforms to the schema of a route guarded by
    [authenticate; requireAdmin] is answered Forbidden, and one that does
    not conform is answered 400 before either guard runs. *)
Lemma user_on_admin_chain now (r : Route) req token claims :
  preHandler r = [authenticate; requireAdmin] ->
  bearer req = Some token ->
  verifyAccessToken token now = Ok claims ->
  role claims = USER ->
  dispatch runGuard now r req
  = if validate r req then Replied (failure Forbidden)
    else Replied (failure ValidationError).
Proof.
  intros Hchain Hbearer Htoken Hrole. unfold dispatch.
  destruct (validate r req); [|reflexivity].
  rewrite Hchain. cbn [runPreHandlers runGuard].
  unfold runAuthenticate. rewrite Hbearer, Htoken.
  unfold runRequireRole. cbn [user attach]. by rewrite Hrole.
Qed.

Lemma user_on_any_chain now (r : Route) req token claims :
  preHandler r = [authenticate; requireAny] ->
  bearer req = Some token ->
  verifyAccessToken token now = Ok claims ->
  role claims = USER ->
  validate r req = true ->
  dispatch runGuard now r req = Invoked (handler r) (attach claims req).
Proof.
  intros Hchain Hbearer Htoken Hrole Hvalid. unfold dispatch.
  rewrite Hvalid, Hchain. cbn [runPreHandlers runGuard].
  unfold runAuthenticate. rewrite Hbearer, Htoken.
  unfold runRequireAny. cbn [user attach]. by rewrite Hrole.
Qed.

(** C8. Of the resource routes, GET / and GET /:id carry no preHandler at
    all: what a request comes to on them is settled by the rate-limit hook
    and the validation of the route's schema alone, and a request both let
    through reaches the handler undecorated, whoever sends it and whatever
    the guards would have said.  GET /my, POST /, PATCH /:id and DELETE /:id
    carry [authenticate; requireAny], so a request that passes the rate
    limit and validation and that [authenticate] refuses gets that refusal
    for a reply; there is no other resource route. *)
Theorem resource_reads_unguarded :
  Forall (fun r =>
    (method r = GET /\ (url r = "/" \/ url r = "/:id")
     /\ preHandler r = []
     /\ (forall globalLimit now req counters,
           fst (serve guard globalLimit now r req counters)
           = match fst (onRequest globalLimit now r req counters) with
             | Limited _ => Replied (failure RateLimited)
             | Allowed =>
                 if validate r req then Invoked (handler r) req
                 else Replied (failure ValidationError)
             end))
    \/ (((method r = GET /\ url r = "/my")
         \/ (method r = POST /\ url r = "/")
         \/ (method r = PATCH /\ url r = "/:id")
         \/ (method r = DELETE /\ url r = "/:id"))
        /\ preHandler r = [authenticate; requireAny]
        /\ (forall globalLimit now req counters reply,
              fst (onRequest globalLimit now r req counters) = Allowed ->
              validate r req = true ->
              guard now authenticate req = Halt reply ->
              fst (serve guard globalLimit now r req counters) = Replied reply)))
    resourceRoutes
  /\ preHandler <$> findRoute GET "/" resourceRoutes = Some []
  /\ preHandler <$> findRoute GET "/:id" resourceRoutes = Some []
  /\ preHandler <$> findRoute GET "/my" resourceRoutes = Some [authenticate; requireAny]
  /\ preHandler <$> findRoute POST "/" resourceRoutes = Some [authenticate; requireAny]
  /\ preHandler <$> findRoute PATCH "/:id" resourceRoutes = Some [authenticate; requireAny]
  /\ preHandler <$> findRoute DELETE "/:id" resourceRoutes = Some [authenticate; requireAny].
Proof.
  assert (Hopen : forall r globalLimit now req counters,
            preHandler r = [] ->
            fst (serve guard globalLimit now r req counters)
            = match fst (onRequest globalLimit now r req counters) with
              | Limited _ => Replied (failure RateLimited)
              | Allowed =>
                  if validate r req then Invoked (handler r) req
                  else Replied (failure ValidationError)
              end).
  { intros r globalLimit now req counters Hchain.
    by rewrite serve_outcome, (no_hooks_invokes now r req Hchain). }
  assert (Hguarded : forall r after globalLimit now req counters reply,
            preHandler r = authenticate :: after ->
            fst (onRequest globalLimit now r req counters) = Allowed ->
            validate r req = true ->
            guard now authenticate req = Halt reply ->
            fst (serve guard globalLimit now r req counters) = Replied reply).
  { intros r after globalLimit now req counters reply Hchain Hpass Hvalid Hg.
    rewrite serve_outcome, Hpass. by eapply first_hook_halts. }
  split; [|by repeat split].
  apply Forall_forall. intros r Hr. unfold resourceRoutes in Hr.
  each_route Hr.
  - left. repeat split; auto; intros; by apply Hopen.
  - right. repeat split; auto; intros; by eapply Hguarded.
  - left. repeat split; auto; intros; by apply Hopen.
  - right. repeat split; auto; intros; by eapply Hguarded.
  - right. repeat split; auto; intros; by eapply Hguarded.
  - right. repeat split; auto 6; intros; by eapply Hguarded.
Qed.

(** C4, amended. Every route registered under the admin prefix has the
    preHandler chain [authenticate; requireAdmin], in that order, and of the
    routes [buildApp] takes from the auth, resources and admin modules no
    other lies under that prefix; on a request that conforms to the route's
    schema the two hooks run in that order before the handler, whatever
    they are.  With the guards of the RBAC Evaluator, a request bearing a
    valid access token
    whose role claim is USER, once the rate-limit hook lets it through, is
    answered 403 by the chain on each admin route when it conforms to the
    route's schema, the handler never called, and 400 by validation when it
    does not, no guard run; any route guarded by [authenticate; requireAny]
    (GET /resources/my is one) hands the same request to its handler when it
    passes the rate limit and validation.  A hook that replies ends the
    chain whatever hooks follow it. *)
Theorem admin_routes_deny_user
    (API_PREFIX : string) (globalLimit : option Limit) (now : Z) (req : Request)
    (counters : gmap (string * string) Window)
    (token : string) (claims : AccessTokenClaims) :
  bearer req = Some token ->
  verifyAccessToken token now = Ok claims ->
  role claims = USER ->
  (forall r, r ∈ register adminRoutes (adminPrefix API_PREFIX) ->
     preHandler r = [authenticate; requireAdmin]
     /\ (forall rq,
          dispatch guard now r rq
          = if validate r rq then
              match guard now authenticate rq with
              | Halt reply => Replied reply
              | Continue rq' =>
                  match guard now requireAdmin rq' with
                  | Halt reply => Replied reply
                  | Continue rq'' => Invoked (handler r) rq''
                  end
              end
            else Replied (failure ValidationError))
     /\ fst (serve runGuard globalLimit now r req counters)
        = match fst (onRequest globalLimit now r req counters) with
          | Limited _ => Replied (failure RateLimited)
          | Allowed =>
              if validate r req then Replied (failure Forbidden)
              else Replied (failure ValidationError)
          end
     /\ status (failure Forbidden) = 403
     /\ status (failure ValidationError) = 400)
  /\ (forall healthRoutes r,
        r ∈ buildApp API_PREFIX healthRoutes -> r ∉ healthRoutes ->
        Text.startsWith (adminPrefix API_PREFIX) (url r) = true ->
        r ∈ register adminRoutes (adminPrefix API_PREFIX))
  /\ (forall r, preHandler r = [authenticate; requireAny] ->
        fst (onRequest globalLimit now r req counters) = Allowed ->
        validate r req = true ->
        fst (serve runGuard globalLimit now r req counters)
        = Invoked (handler r) (attach claims req))
  /\ (exists r, r ∈ register resourceRoutes (resourcesPrefix API_PREFIX)
        /\ preHandler r = [authenticate; requireAny])
  /\ (forall before g after rq rq' reply,
        runPreHandlers guard now before rq = Continue rq' ->
        guard now g rq' = Halt reply ->
        runPreHandlers guard now (before ++ g :: after) rq = Halt reply).
Proof.
  intros Hbearer Htoken Hrole.
  split; [|split; [|split; [|split]]].
  - intros r Hr. apply elem_of_register in Hr as (r0 & Hr0 & ->).
    pose proof (admin_chain r0 Hr0) as Hchain.
    split; [exact Hchain|].
    split.
    { intros rq. unfold dispatch.
      change (validate (withPrefix (adminPrefix API_PREFIX) r0) rq)
        with (validate r0 rq).
      destruct (validate r0 rq); [|reflexivity].
      change (preHandler (withPrefix (adminPrefix API_PREFIX) r0))
        with (preHandler r0).
      rewrite Hchain. cbn [runPreHandlers].
      destruct (guard now authenticate rq) as [rq'|reply]; [|reflexivity].
      by destruct (guard now requireAdmin rq') as [rq''|reply]. }
    split; [|by split].
    rewrite serve_outcome.
    by rewrite (user_on_admin_chain now (withPrefix _ r0) req token claims
                  Hchain Hbearer Htoken Hrole).
  - intros healthRoutes r. apply under_admin_prefix.
  - intros r Hchain Hpass Hvalid. rewrite serve_outcome, Hpass.
    by eapply user_on_any_chain.
  - exists (withPrefix (resourcesPrefix API_PREFIX)
              {| method := GET; url := "/my";
                 rateLimit := Some {| max := 1000; timeWindow := "15 minutes" |};
                 preHandler := [authenticate; requireAny];
                 handler := "resourceController.getMyResources";
                 responses := [200; 401];
                 schema := {| schemaBody := None; schemaParams := None;
                              schemaQuerystring := Some (FromZod "PaginationSchema") |} |}).
    split; [|reflexivity].
    apply elem_of_register. eexists. split; [|reflexivity].
    unfold resourceRoutes. apply elem_of_cons. right. apply elem_of_cons. by left.
  - intros before g after rq rq' reply. apply runPreHandlers_short_circuit.
Qed.

End GuardChains.

(** The guards as the RBAC Evaluator describes them keep the contract. *)
Lemma runGuard_keeps_contract `{Envelope.ErrorText} `{Lifecycle.AccessCodec} :
  Lifecycle.GuardContract Lifecycle.runGuard.
Proof.
  split.
  - intros now req token claims Hb Hv. simpl.
    unfold Lifecycle.runAuthenticate. by rewrite Hb, Hv.
  - intros now req claims Hu Hrole. simpl.
    unfold Lifecycle.runRequireRole. by rewrite Hu, Hrole.
  - intros now req claims Hu Hrole. simpl.
    unfold Lifecycle.runRequireAny. by rewrite Hu, Hrole.
Qed.

(** C4 on a request with the example USER token at time 1000 that conforms
    to the schema of each admin route: Forbidden on all six. *)
Lemma admin_routes_deny_user_witness :
  Forall (fun r =>
    fst (@Server.serve Envelope.plainText Lifecycle.objectValidator
           (@Lifecycle.runGuard Envelope.plainText Lifecycle.toyCodec)
           None 1000 r Server.userChangesRole ∅)
    = Lifecycle.Replied (@Envelope.failure Envelope.plainText Envelope.Forbidden))
    (Routes.register Routes.adminRoutes (Routes.adminPrefix "/api/v1")).
Proof.
  apply Forall_forall. intros r Hr.
  destruct (@admin_routes_deny_user Envelope.plainText Lifecycle.toyCodec
              Lifecycle.objectValidator
              (@Lifecycle.runGuard Envelope.plainText Lifecycle.toyCodec)
              "/api/v1" None 1000 Server.userChangesRole ∅
              "user-token"
              {| Lifecycle.subject := 7; Lifecycle.role := Routes.USER;
                 Lifecycle.issuedAt := 0; Lifecycle.expiresAt := 900000 |}
              eq_refl eq_refl eq_refl) as (Hadmin & _).
  destruct (Hadmin r Hr) as (_ & _ & Hdeny & _).
  rewrite Hdeny. clear Hdeny Hadmin.
  unfold Routes.register, Routes.adminRoutes in Hr. cbn [map] in Hr.
  each_route Hr; reflexivity.
Defined.

(** C4 as the spec words it fails on POST /admin/users/:id/change-role: the
    route declares a [body] schema, Fastify validates before it runs the
    [preHandler] chain, and a request with the example USER token and no
    body is answered 400 by validation; neither [authenticate] nor
    [requireAdmin] runs, and the reply is not the 403. *)
Example admin_invalid_body_counterexample :
  Lifecycle.bearer Server.userSendsNoBody = Some "user-token"
  /\ @Lifecycle.verifyAccessToken Lifecycle.toyCodec "user-token" 1000
     = Envelope.Ok {| Lifecycle.subject := 7; Lifecycle.role := Routes.USER;
                      Lifecycle.issuedAt := 0; Lifecycle.expiresAt := 900000 |}
  /\ Routes.withPrefix (Routes.adminPrefix "/api/v1") Server.changeRole
     ∈ Routes.register Routes.adminRoutes (Routes.adminPrefix "/api/v1")
  /\ Routes.schemaBody (Routes.schema Server.changeRole)
     = Some (Routes.FromZod "ChangeRoleSchema")
  /\ fst (@Server.serve Envelope.plainText Lifecycle.objectValidator
            (@Lifecycle.runGuard Envelope.plainText Lifecycle.toyCodec)
            None 1000
            (Routes.withPrefix (Routes.adminPrefix "/api/v1") Server.changeRole)
            Server.userSendsNoBody ∅)
     = Lifecycle.Replied (@Envelope.failure Envelope.plainText Envelope.ValidationError)
  /\ Envelope.status (@Envelope.failure Envelope.plainText Envelope.ValidationError) = 400
  /\ fst (@Server.serve Envelope.plainText Lifecycle.objectValidator
            (@Lifecycle.runGuard Envelope.plainText Lifecycle.toyCodec)
            None 1000
            (Routes.withPrefix (Routes.adminPrefix "/api/v1") Server.changeRole)
            Server.userSendsNoBody ∅)
     <> Lifecycle.Replied (@Envelope.failure Envelope.plainText Envelope.Forbidden).
Proof.
  split; [reflexivity|]. split; [reflexivity|].
  split.
  { unfold Routes.register. apply list_elem_of_fmap.
    exists Server.changeRole. split; [reflexivity|].
    unfold Routes.adminRoutes, Server.changeRole.
    do 3 (apply elem_of_cons; right). apply elem_of_cons. by left. }
  split; [reflexivity|]. split; [reflexivity|]. split; [reflexivity|].
  discriminate.
Qed.

(** The open resource routes on examples: an anonymous request with a uuid
    reaches the handler of GET /resources/:id; one whose id is no uuid is
    answered 400. *)
Example anonymous_read_served :
  fst (@Server.serve Envelope.plainText Lifecycle.objectValidator
         (@Lifecycle.runGuard Envelope.plainText Lifecycle.toyCodec)
         None 1000 Server.getResource Server.anonymousReads ∅)
  = Lifecycle.Invoked "resourceController.getResource" Server.anonymousReads
  /\ fst (@Server.serve Envelope.plainText Lifecycle.objectValidator
            (@Lifecycle.runGuard Envelope.plainText Lifecycle.toyCodec)
            None 1000 Server.getResource Server.anonymousReadsBadId ∅)
     = Lifecycle.Replied (@Envelope.failure Envelope.plainText Envelope.ValidationError).
Proof. split; vm_compute; reflexivity. Qed.

(* ===================================================================== *)
(** ** Rate limits of the auth routes *)
(* ===================================================================== *)

Section RateLimitFacts.
Import Envelope Routes RateLimitGate.
Context `{ErrorText}.
Local Open Scope list_scope.

Implicit Types (l : Limit) (key : string * string) (w : Window).
Implicit Types (counters : gmap (string * string) Window).

Lemma hit_active l key now counters w :
  counters !! key = Some w -> now < resetAt w ->
  hit l key now counters
  = (if limitMax l <? count w + 1 then Limited (resetAt w - now) else Allowed,
     <[key := {| count := count w + 1; resetAt := resetAt w |}]> counters).
Proof.
  intros Hw Hlt. unfold hit. rewrite Hw.
  by rewrite (proj2 (Z.ltb_lt _ _) Hlt).
Qed.

Lemma hit_starts l key now counters :
  startsWindow key now counters -> 0 < windowMs l ->
  hit l key now counters
  = hit l key now (<[key := {| count := 0; resetAt := now + windowMs l |}]> counters).
Proof.
  intros Hstart Hpos. unfold startsWindow in Hstart.
  rewrite (hit_active l key now (<[key := _]> counters) _ (lookup_insert_eq _ _ _));
    [|simpl; lia].
  unfold hit. rewrite insert_insert_eq.
  destruct (counters !! key) as [w|]; [|done].
  by rewrite (proj2 (Z.ltb_ge _ _) Hstart).
Qed.

Lemma hits_app l key ts1 ts2 counters :
  hits l key (ts1 ++ ts2) counters
  = (fst (hits l key ts1 counters)
       ++ fst (hits l key ts2 (snd (hits l key ts1 counters))),
     snd (hits l key ts2 (snd (hits l key ts1 counters)))).
Proof.
  revert counters. induction ts1 as [|t ts1 IH]; intros counters; cbn [hits app fst snd].
  - by destruct (hits l key ts2 counters).
  - destruct (hit l key t counters) as [v c1]. rewrite IH.
    by destruct (hits l key ts1 c1).
Qed.

(** While the count stays within [max], every request of the window passes
    and is counted. *)
Lemma hits_allowed l key ts : forall counters w,
  counters !! key = Some w ->
  Forall (fun t => t < resetAt w) ts ->
  count w + Z.of_nat (length ts) <= limitMax l ->
  fst (hits l key ts counters) = replicate (length ts) Allowed
  /\ snd (hits l key ts counters) !! key
     = Some {| count := count w + Z.of_nat (length ts); resetAt := resetAt w |}.
Proof.
  induction ts as [|t ts IH]; intros counters w Hw Hin Hle;
    cbn [hits length fst snd replicate] in *.
  - split; [done|]. rewrite Hw. f_equal. destruct w; simpl. f_equal. lia.
  - apply Forall_cons in Hin as [Ht Hts].
    rewrite (hit_active l key t counters w Hw Ht).
    destruct (IH (<[key := {| count := count w + 1; resetAt := resetAt w |}]> counters)
                {| count := count w + 1; resetAt := resetAt w |}) as [IHv IHc];
      [apply lookup_insert_eq | done | simpl; lia |].
    destruct (hits l key ts _) as [vs c2]; simpl in *.
    rewrite (proj2 (Z.ltb_ge _ _)); [|lia].
    split; [by rewrite IHv|]. rewrite IHc. do 2 f_equal. lia.
Qed.

(** The gate itself: [max] requests of a fresh window pass, the next one
    inside the window is refused. *)
Lemma hits_limit_then_reject l key first rest last counters :
  0 < windowMs l ->
  startsWindow key first counters ->
  Forall (fun t => t < first + windowMs l) (rest ++ [last]) ->
  Z.of_nat (length (first :: rest)) = limitMax l ->
  fst (hits l key (first :: rest ++ [last]) counters)
  = replicate (length (first :: rest)) Allowed
    ++ [Limited (first + windowMs l - last)].
Proof.
  intros Hpos Hstart Hin Hlen.
  set (w0 := {| count := 0; resetAt := first + windowMs l |}).
  assert (Hsame : hits l key (first :: rest ++ [last]) counters
                  = hits l key ((first :: rest) ++ [last]) (<[key := w0]> counters)).
  { cbn [hits app]. by rewrite (hit_starts l key first counters Hstart Hpos). }
  rewrite Hsame, hits_app. cbn [fst].
  apply Forall_app in Hin as [Hrest Hlast].
  apply (proj1 (Forall_singleton _ _)) in Hlast.
  destruct (hits_allowed l key (first :: rest) (<[key := w0]> counters) w0)
    as [Hvs Hc].
  { apply lookup_insert_eq. }
  { apply Forall_cons. split; [simpl; lia | exact Hrest]. }
  { simpl count. lia. }
  destruct (hits l key (first :: rest) (<[key:=w0]> counters)) as [vs c1].
  cbn [fst snd] in *. rewrite Hvs. f_equal.
  cbn [hits]. rewrite (hit_active l key last _ _ Hc Hlast). cbn [fst count resetAt].
  rewrite (proj2 (Z.ltb_lt _ _)); [done|]. subst w0. cbn [count]. lia.
Qed.

Lemma gates_hits (r : Route) cfg l caller ts counters :
  rateLimit r = Some cfg -> limitOf cfg = Some l ->
  gates r caller ts counters = hits l (url r, caller) ts counters.
Proof.
  intros Hcfg Hl. revert counters.
  induction ts as [|t ts IH]; intros counters; cbn [gates hits]; [done|].
  unfold gate. rewrite Hcfg, Hl.
  destruct (hit l (url r, caller) t counters) as [v c1]. by rewrite IH.
Qed.

(** C7. The [config.rateLimit] of POST /auth/register is 3 per '1 hour', of
    POST /auth/login 5 per '15 minutes', of POST /auth/refresh 10 per
    '15 minutes'.  For each of the three, when a caller starts a window, its
    first [max] requests inside the window pass the gate and request number
    [max + 1] inside the window is refused with RateLimited, status 429. *)
Theorem auth_rate_limits :
  Forall (fun '(path, n, window, ms) =>
    exists r,
      findRoute POST path authRoutes = Some r
      /\ rateLimit r = Some {| max := n; timeWindow := window |}
      /\ limitOf {| max := n; timeWindow := window |}
         = Some {| limitMax := n; windowMs := ms |}
      /\ forall caller first rest last counters,
           startsWindow (url r, caller) first counters ->
           Forall (fun t => t < first + ms) (rest ++ [last]) ->
           Z.of_nat (length (first :: rest)) = n ->
           exists retryAfter,
             fst (gates r caller (first :: rest ++ [last]) counters)
             = replicate (Z.to_nat n) Allowed ++ [Limited retryAfter]
             /\ (status <$> replyOf (Limited retryAfter)) = Some 429)
    [ ("/register", 3, "1 hour", 3600000);
      ("/login", 5, "15 minutes", 900000);
      ("/refresh", 10, "15 minutes", 900000) ].
Proof.
  assert (Hgate : forall (r : Route) n window ms,
    rateLimit r = Some {| max := n; timeWindow := window |} ->
    limitOf {| max := n; timeWindow := window |}
      = Some {| limitMax := n; windowMs := ms |} ->
    0 < ms ->
    forall caller first rest last counters,
      startsWindow (url r, caller) first counters ->
      Forall (fun t => t < first + ms) (rest ++ [last]) ->
      Z.of_nat (length (first :: rest)) = n ->
      exists retryAfter,
        fst (gates r caller (first :: rest ++ [last]) counters)
        = replicate (Z.to_nat n) Allowed ++ [Limited retryAfter]
        /\ (status <$> replyOf (Limited retryAfter)) = Some 429).
  { intros r n window ms Hcfg Hl Hpos caller first rest last counters Hs Hin Hlen.
    exists (first + ms - last).
    rewrite (gates_hits r _ _ caller _ counters Hcfg Hl).
    rewrite (hits_limit_then_reject {| limitMax := n; windowMs := ms |}
               _ first rest last counters Hpos Hs Hin Hlen).
    split; [|reflexivity]. by rewrite <- Hlen, Nat2Z.id. }
  apply List.Forall_cons;
    [|apply List.Forall_cons; [|apply List.Forall_cons; [|apply List.Forall_nil]]].
  - eexists. split; [reflexivity|]. split; [reflexivity|]. split; [reflexivity|].
    apply (Hgate _ 3 "1 hour" 3600000); [reflexivity | reflexivity | lia].
  - eexists. split; [reflexivity|]. split; [reflexivity|]. split; [reflexivity|].
    apply (Hgate _ 5 "15 minutes" 900000); [reflexivity | reflexivity | lia].
  - eexists. split; [reflexivity|]. split; [reflexivity|]. split; [reflexivity|].
    apply (Hgate _ 10 "15 minutes" 900000); [reflexivity | reflexivity | lia].
Qed.

End RateLimitFacts.

(** Six login attempts of one address within a quarter of an hour: the
    sixth is refused; the first one after the window passes again. *)
Example login_sixth_attempt_limited :
  fst (RateLimitGate.gates
         {| Routes.method := Routes.POST; Routes.url := "/login";
            Routes.rateLimit := Some {| Routes.max := 5; Routes.timeWindow := "15 minutes" |};
            Routes.preHandler := []; Routes.handler := "authController.login";
            Routes.responses := [200; 401];
            Routes.schema :=
              {| Routes.schemaBody := Some (Routes.FromZod "LoginRequest");
                 Routes.schemaParams := None;
                 Routes.schemaQuerystring := None |} |}
         "10.0.0.1" [0; 1000; 2000; 3000; 4000; 5000; 900000] ∅)
  = [RateLimitGate.Allowed; RateLimitGate.Allowed; RateLimitGate.Allowed;
     RateLimitGate.Allowed; RateLimitGate.Allowed; RateLimitGate.Limited 895000;
     RateLimitGate.Allowed].
Proof. vm_compute. reflexivity. Qed.

(* ===================================================================== *)
(** ** Rotation: reuse detection and logout *)
(* ===================================================================== *)

Section RotationFacts.
Import Envelope Rotation.
Context `{ErrorText} `{TokenIssuer}.
Local Open Scope list_scope.

Implicit Types (store : list RefreshTokenRecord) (r : RefreshTokenRecord).

Lemma findByHash_map h (f : RefreshTokenRecord -> RefreshTokenRecord) store :
  (forall r, tokenHash (f r) = tokenHash r) ->
  findByHash h (map f store) = f <$> findByHash h store.
Proof.
  intros Hf. induction store as [|r store IH]; [done|].
  unfold findByHash in *. simpl. rewrite Hf.
  by destruct (String.eqb (tokenHash r) h).
Qed.

Lemma findByHash_updateByHash h (f : RefreshTokenRecord -> RefreshTokenRecord) store :
  (forall r, tokenHash (f r) = tokenHash r) ->
  findByHash h (updateByHash h f store) = f <$> findByHash h store.
Proof.
  intros Hf. induction store as [|r store IH]; [done|].
  unfold findByHash in *. simpl.
  destruct (String.eqb (tokenHash r) h) eqn:Hr; simpl.
  - by rewrite Hf, Hr.
  - by rewrite Hr.
Qed.

Lemma findByHash_app_l h store extra r :
  findByHash h store = Some r -> findByHash h (store ++ extra) = Some r.
Proof.
  unfold findByHash. induction store as [|r0 store IH]; [done|]. simpl.
  by destruct (String.eqb (tokenHash r0) h).
Qed.

(** The record [findByHash] finds is the one [updateByHash] rewrites; the
    records around it stay as they are. *)
Lemma updateByHash_split h (f : RefreshTokenRecord -> RefreshTokenRecord) store r :
  findByHash h store = Some r ->
  exists before after,
    store = before ++ r :: after
    /\ findByHash h before = None
    /\ updateByHash h f store = before ++ f r :: after.
Proof.
  unfold findByHash. induction store as [|r0 store IH]; [done|]. simpl.
  destruct (String.eqb (tokenHash r0) h) eqn:Hr0.
  - intros [= ->]. by exists [], store.
  - intros Hfind. destruct (IH Hfind) as (before & after & -> & Hnone & Hupd).
    exists (r0 :: before), after. simpl. rewrite Hr0, Hupd. by repeat split.
Qed.

Lemma updateByHash_absent h (f : RefreshTokenRecord -> RefreshTokenRecord) store :
  findByHash h store = None -> updateByHash h f store = store.
Proof.
  unfold findByHash. induction store as [|r0 store IH]; [done|]. simpl.
  destruct (String.eqb (tokenHash r0) h); [done|].
  intros Hnone. by rewrite IH.
Qed.

Lemma revoke_revoked now r : revokedAt (revoke now r) <> None.
Proof. unfold revoke. by destruct (revokedAt r) eqn:Hr; [rewrite Hr|]. Qed.

Lemma revokeAll_revoked now uid store r :
  r ∈ revokeAllForUser now uid store -> userId r = uid -> revokedAt r <> None.
Proof.
  unfold revokeAllForUser. intros Hin Huid.
  apply list_elem_of_fmap in Hin as (r0 & -> & _).
  destruct (Nat.eqb (userId r0) uid) eqn:Hu.
  - apply revoke_revoked.
  - apply Nat.eqb_neq in Hu. done.
Qed.

Lemma revokeAll_others now uid store r :
  r ∈ store -> userId r <> uid -> r ∈ revokeAllForUser now uid store.
Proof.
  intros Hin Hne. unfold revokeAllForUser.
  apply list_elem_of_fmap. exists r. split; [|done].
  by rewrite (proj2 (Nat.eqb_neq _ _) Hne).
Qed.

Lemma findByHash_revokeAll h now uid store :
  findByHash h (revokeAllForUser now uid store)
  = (fun r => if Nat.eqb (userId r) uid then revoke now r else r)
      <$> findByHash h store.
Proof.
  apply findByHash_map. intros r.
  destruct (Nat.eqb (userId r) uid); [|done].
  unfold revoke. by destruct (revokedAt r).
Qed.

Lemma stateOf_reused now r :
  stateOf now r = ROTATED \/ stateOf now r = REVOKED <->
  replacedByTokenId r <> None \/ revokedAt r <> None.
Proof.
  unfold stateOf.
  destruct (replacedByTokenId r), (revokedAt r), (expiresAt r <=? now);
    split; intros [?|?]; first [congruence | left; congruence | right; congruence].
Qed.

(** A token whose record is revoked never refreshes. *)
Lemma refresh_revoked_fails now rawToken newRaw newId store r :
  findByHash (hashToken rawToken) store = Some r ->
  revokedAt r <> None ->
  exists e, fst (refresh now rawToken newRaw newId store) = Err e
            /\ (e = TokenExpired \/ e = TokenReuseDetected).
Proof.
  intros Hfind Hrev. unfold refresh. rewrite Hfind.
  destruct (expiresAt r <=? now); [by exists TokenExpired; split; [|left]|].
  assert (Hst : stateOf now r = ROTATED \/ stateOf now r = REVOKED)
    by (apply stateOf_reused; by right).
  destruct Hst as [-> | ->]; by exists TokenReuseDetected; split; [|right].
Qed.

(** Reuse detection itself: steps (1) to (4) on a live ROTATED or REVOKED
    record. *)
Lemma refresh_reuse now rawToken newRaw newId store r :
  findByHash (hashToken rawToken) store = Some r ->
  now < expiresAt r ->
  stateOf now r = ROTATED \/ stateOf now r = REVOKED ->
  refresh now rawToken newRaw newId store
  = (Err TokenReuseDetected, revokeAllForUser now (userId r) store).
Proof.
  intros Hfind Hlive Hst. unfold refresh. rewrite Hfind.
  rewrite (proj2 (Z.leb_gt _ _) Hlive).
  by destruct Hst as [-> | ->].
Qed.

(** A successful rotation leaves the presented token on a ROTATED record, so
    presenting it again, at whatever time, fails. *)
Lemma refresh_second_use_fails now rawToken newRaw newId store issued store1 :
  refresh now rawToken newRaw newId store = (Ok issued, store1) ->
  forall later newRaw' newId',
  exists e, fst (refresh later rawToken newRaw' newId' store1) = Err e
            /\ (e = TokenExpired \/ e = TokenReuseDetected).
Proof.
  unfold refresh at 1.
  destruct (findByHash (hashToken rawToken) store) as [r|] eqn:Hfind; [|done].
  destruct (expiresAt r <=? now); [done|].
  destruct (stateOf now r); try done; intros [= _ <-] later newRaw' newId';
    (eapply (refresh_revoked_fails later rawToken newRaw' newId' _ (rotate now newId r));
     [ apply findByHash_app_l; rewrite findByHash_updateByHash by done;
       by rewrite Hfind
     | done ]).
Qed.

(** Reuse detection, as the steps of the protocol have it.  When the
    presented token hashes to a stored record that [now] is strictly before
    the [expiresAt] of and that is already ROTATED or REVOKED, [refresh] fails with TokenReuseDetected (a 401) and leaves the
    store with every record of that user revoked and the records of other
    users in place; after that, a refresh with the token of any record of
    that user, the successor of a rotated record among them, fails too. *)
Theorem refresh_reuse_revokes_user_sessions
    (now : Z) (rawToken newRaw : string) (newId : nat)
    (store : list RefreshTokenRecord) (r : RefreshTokenRecord) :
  findByHash (hashToken rawToken) store = Some r ->
  now < expiresAt r ->
  stateOf now r = ROTATED \/ stateOf now r = REVOKED ->
  let store' := revokeAllForUser now (userId r) store in
  refresh now rawToken newRaw newId store = (Err TokenReuseDetected, store')
  /\ status (refreshReply (Err TokenReuseDetected)) = 401
  /\ (forall r', r' ∈ store' -> userId r' = userId r -> revokedAt r' <> None)
  /\ (forall r', r' ∈ store -> userId r' <> userId r -> r' ∈ store')
  /\ (forall later successorRaw newRaw' newId' successor,
        findByHash (hashToken successorRaw) store = Some successor ->
        userId successor = userId r ->
        exists e, fst (refresh later successorRaw newRaw' newId' store') = Err e).
Proof.
  intros Hfind Hlive Hst store'.
  split; [by apply refresh_reuse|]. split; [reflexivity|].
  split; [intros r'; apply revokeAll_revoked|].
  split; [intros r'; apply revokeAll_others|].
  intros later successorRaw newRaw' newId' successor Hsucc Huser.
  destruct (refresh_revoked_fails later successorRaw newRaw' newId' store'
              (revoke now successor)) as (e & He & _).
  - subst store'. rewrite findByHash_revokeAll, Hsucc. simpl.
    by rewrite (proj2 (Nat.eqb_eq _ _) Huser).
  - apply revoke_revoked.
  - by exists e.
Qed.

(** C3. [logout] succeeds on every token, and its reply is 200 with null
    data: an unknown token and an already revoked one leave the store as it
    is, a second logout changes nothing more, and on a record not yet
    revoked the one change is that this record gets its [revokedAt], which
    makes it REVOKED.  The route itself documents only the 200 response and
    has neither guard nor rate-limit configuration. *)
Theorem logout_always_succeeds (now : Z) (rawToken : string)
    (store : list RefreshTokenRecord) :
  fst (logout now rawToken store) = Ok tt
  /\ logoutReply (fst (logout now rawToken store)) = success 200 Json.JNull
  /\ (findByHash (hashToken rawToken) store = None ->
        snd (logout now rawToken store) = store)
  /\ (forall r, findByHash (hashToken rawToken) store = Some r ->
        revokedAt r <> None -> snd (logout now rawToken store) = store)
  /\ (forall r, findByHash (hashToken rawToken) store = Some r ->
        revokedAt r = None ->
        exists before after,
          store = before ++ r :: after
          /\ snd (logout now rawToken store) = before ++ setRevoked now r :: after
          /\ (replacedByTokenId r = None ->
                forall t, stateOf t (setRevoked now r) = REVOKED))
  /\ (forall later,
        logout later rawToken (snd (logout now rawToken store))
        = (Ok tt, snd (logout now rawToken store)))
  /\ (exists route,
        Routes.findRoute Routes.POST "/logout" Routes.authRoutes = Some route
        /\ Routes.responses route = [200%Z]
        /\ Routes.preHandler route = []
        /\ Routes.rateLimit route = None).
Proof.
  assert (Hok : fst (logout now rawToken store) = Ok tt).
  { unfold logout. destruct (findByHash _ store) as [r|]; [|done].
    by destruct (revokedAt r). }
  split; [exact Hok|]. split; [by rewrite Hok|].
  split; [|split; [|split; [|split]]].
  - intros Hnone. unfold logout. by rewrite Hnone.
  - intros r Hfind Hrev. unfold logout. rewrite Hfind.
    by destruct (revokedAt r).
  - intros r Hfind Hactive.
    destruct (updateByHash_split _ (setRevoked now) store r Hfind)
      as (before & after & Hstore & _ & Hupd).
    exists before, after. split; [exact Hstore|]. split.
    + unfold logout. rewrite Hfind, Hactive. exact Hupd.
    + intros Hlink t. unfold stateOf. simpl. by rewrite Hlink.
  - intros later. unfold logout at 2 3.
    destruct (findByHash (hashToken rawToken) store) as [r|] eqn:Hfind.
    + destruct (revokedAt r) eqn:Hrev; simpl.
      * unfold logout. by rewrite Hfind, Hrev.
      * unfold logout. rewrite findByHash_updateByHash by done.
        by rewrite Hfind.
    + simpl. unfold logout. by rewrite Hfind.
  - eexists. by repeat split.
Qed.

End RotationFacts.

Example afterRotation_records :
  Rotation.afterRotation = [Rotation.rotatedRecord; Rotation.successorRecord].
Proof. vm_compute. reflexivity. Qed.

(** Reuse detection on the example session, the day after the rotation: the
    old token is presented again, and then the new one. *)
Lemma refresh_reuse_revokes_user_sessions_witness :
  @Rotation.refresh Rotation.toyIssuer 172800000 "old" "x" 3 Rotation.afterRotation
  = (Envelope.Err Envelope.TokenReuseDetected,
     Rotation.revokeAllForUser 172800000 7 Rotation.afterRotation)
  /\ exists e,
       fst (@Rotation.refresh Rotation.toyIssuer 172800001 "new" "y" 4
              (Rotation.revokeAllForUser 172800000 7 Rotation.afterRotation))
       = Envelope.Err e.
Proof.
  destruct (@refresh_reuse_revokes_user_sessions Envelope.plainText Rotation.toyIssuer
              172800000 "old" "x" 3 Rotation.afterRotation Rotation.rotatedRecord
              eq_refl eq_refl (or_introl eq_refl))
    as (Hreuse & _ & _ & _ & Hnext).
  split; [exact Hreuse|].
  exact (Hnext 172800001 "new" "y" 4%nat Rotation.successorRecord eq_refl eq_refl).
Defined.

(** Step 3 of the protocol comes before step 4: from its [expiresAt] on a
    ROTATED record is answered TokenExpired.  Seven days after the login the
    old token of the example session gets that answer, nothing is revoked,
    and the successor token still refreshes. *)
Lemma refresh_reuse_past_expiry_counterexample :
  Rotation.findByHash (@Rotation.hashToken Rotation.toyIssuer "old") Rotation.afterRotation
  = Some Rotation.rotatedRecord
  /\ Rotation.stateOf 604800000 Rotation.rotatedRecord = Rotation.ROTATED
  /\ @Rotation.refresh Rotation.toyIssuer 604800000 "old" "x" 3 Rotation.afterRotation
     = (Envelope.Err Envelope.TokenExpired, Rotation.afterRotation)
  /\ fst (@Rotation.refresh Rotation.toyIssuer 604800001 "new" "z" 3 Rotation.afterRotation)
     = Envelope.Ok {| Rotation.accessToken := "jwt"; Rotation.refreshToken := "z" |}.
Proof.
  split; [|split; [|split]].
  - vm_compute. reflexivity.
  - reflexivity.
  - vm_compute. reflexivity.
  - vm_compute. reflexivity.
Qed.

(* ===================================================================== *)
(** ** Credentials: what a caller sees *)
(* ===================================================================== *)

Section CredentialFacts.
Import Envelope Routes Credentials.
Context `{ErrorText} `{PasswordHasher} `{Rotation.TokenIssuer}.

Lemma failure_has_no_hash e :
  Json.mentions "passwordHash" (body (failure e)) = false.
Proof. reflexivity. Qed.

Lemma userResponse_has_no_hash u :
  Json.mentions "passwordHash" (userResponse u) = false.
Proof. unfold userResponse. by destruct (name u). Qed.

Lemma authData_has_no_hash u issued :
  Json.mentions "passwordHash" (authData u issued) = false.
Proof.
  unfold authData. cbn [Json.mentions]. rewrite userResponse_has_no_hash.
  reflexivity.
Qed.

(** C5. Whatever the inputs and the stores, the replies of registration, of
    login and of GET /auth/me have no [passwordHash] field at any depth; the
    user object they carry has the properties of the documented /auth/me
    response, and [passwordHash] is not one of them. *)
Theorem replies_never_carry_passwordHash
    (f : Fresh) (e password : string) (displayName : option string)
    (subject : nat) (st : State) :
  Json.mentions "passwordHash" (body (fst (registerHandler f e password displayName st)))
  = false
  /\ Json.mentions "passwordHash" (body (fst (loginHandler f e password st))) = false
  /\ Json.mentions "passwordHash" (body (getMe subject st)) = false
  /\ (forall u, Json.keys (userResponse u) = meResponseProperties)
  /\ ~ In "passwordHash" meResponseProperties.
Proof.
  split; [|split; [|split; [|split]]].
  - unfold registerHandler, register.
    destruct (findByEmail e (users st)); [apply failure_has_no_hash|].
    cbn [fst body success Rotation.issuePair].
    cbn [Json.mentions]. by rewrite authData_has_no_hash.
  - unfold loginHandler, login.
    destruct (findByEmail e (users st)) as [u|]; [|apply failure_has_no_hash].
    destruct (verifyPassword password (passwordHash u));
      [|apply failure_has_no_hash].
    cbn [fst body success Rotation.issuePair].
    cbn [Json.mentions]. by rewrite authData_has_no_hash.
  - unfold getMe. destruct (findById subject (users st));
      [|apply failure_has_no_hash].
    cbn [body success Json.mentions]. by rewrite userResponse_has_no_hash.
  - reflexivity.
  - unfold meResponseProperties. simpl. intros Hin.
    repeat (destruct Hin as [Heq | Hin]; [discriminate Heq|]). exact Hin.
Qed.

(** C6. A login with an email that no user has and a login with a known
    email whose password does not verify get the same InvalidCredentials
    result, the same 401 reply, byte for byte, and leave the state alone. *)
Theorem login_failures_indistinguishable
    (f1 f2 : Fresh) (unknownEmail password1 knownEmail password2 : string)
    (u : User) (st : State) :
  findByEmail unknownEmail (users st) = None ->
  findByEmail knownEmail (users st) = Some u ->
  verifyPassword password2 (passwordHash u) = false ->
  login unknownEmail password1 (users st) = Err InvalidCredentials
  /\ login knownEmail password2 (users st) = Err InvalidCredentials
  /\ loginHandler f1 unknownEmail password1 st = (failure InvalidCredentials, st)
  /\ loginHandler f2 knownEmail password2 st = (failure InvalidCredentials, st)
  /\ status (failure InvalidCredentials) = 401.
Proof.
  intros Habsent Hpresent Hwrong.
  assert (Hfirst : login unknownEmail password1 (users st) = Err InvalidCredentials).
  { unfold login. by rewrite Habsent. }
  assert (Hsecond : login knownEmail password2 (users st) = Err InvalidCredentials).
  { unfold login. by rewrite Hpresent, Hwrong. }
  split; [exact Hfirst|]. split; [exact Hsecond|].
  unfold loginHandler. rewrite Hfirst, Hsecond. by repeat split.
Qed.

End CredentialFacts.

(** C6 on the example user: a stranger's email against Alice's email with a
    wrong password. *)
Lemma login_failures_indistinguishable_witness :
  @Credentials.loginHandler Envelope.plainText Credentials.toyHasher Rotation.toyIssuer
    {| Credentials.now := 10; Credentials.newUserId := 8; Credentials.newTokenId := 1;
       Credentials.salt := "s1"; Credentials.rawRefresh := "r1" |}
    "mallory@example.com" "guess" Credentials.oneUser
  = @Credentials.loginHandler Envelope.plainText Credentials.toyHasher Rotation.toyIssuer
      {| Credentials.now := 20; Credentials.newUserId := 8; Credentials.newTokenId := 1;
         Credentials.salt := "s1"; Credentials.rawRefresh := "r2" |}
      "alice@EXAMPLE.com" "wrong" Credentials.oneUser.
Proof.
  destruct (@login_failures_indistinguishable
              Envelope.plainText Credentials.toyHasher Rotation.toyIssuer
              {| Credentials.now := 10; Credentials.newUserId := 8;
                 Credentials.newTokenId := 1;
                 Credentials.salt := "s1"; Credentials.rawRefresh := "r1" |}
              {| Credentials.now := 20; Credentials.newUserId := 8;
                 Credentials.newTokenId := 1;
                 Credentials.salt := "s1"; Credentials.rawRefresh := "r2" |}
              "mallory@example.com" "guess" "alice@EXAMPLE.com" "wrong"
              Credentials.alice Credentials.oneUser eq_refl eq_refl eq_refl)
    as (_ & _ & Hunknown & Hwrong & _).
  rewrite Hunknown, Hwrong. reflexivity.
Defined.

(* ===================================================================== *)
(** ** create-tigra: an existing target directory *)
(* ===================================================================== *)

Example toKebabCase_examples :
  Cli.toKebabCase "My App!" = "my-app"
  /\ Cli.toKebabCase "--Hello  World--" = "hello-world"
  /\ Cli.toSnakeCase "my-app" = "my_app"
  /\ Cli.toTitleCase "my-app" = "My App".
Proof. by repeat split. Qed.

(** A run into a free directory copies the template, leaving out what the
    filter refuses, and substitutes the variables. *)
Example fresh_directory_is_created :
  let run := Cli.action (Cli.sampleInvocation "New App") Cli.sampleFs in
  Cli.exitCode run = None
  /\ Cli.fsAfter run !! "/home/dev/new-app/server/package.json"
     = Some (Cli.File "name: new-app")
  /\ Cli.fsAfter run !! "/home/dev/new-app/CLAUDE.md" = Some (Cli.File "# New App")
  /\ Cli.fsAfter run !! "/home/dev/new-app/server/node_modules" = None
  /\ Cli.fsAfter run !! "/home/dev/my-app/notes.txt" = Some (Cli.File "keep me").
Proof. vm_compute. by repeat split. Qed.

Section CliFacts.
Import Cli.
Local Open Scope list_scope.

Lemma chosenName_asks_only (inv : Invocation) :
  Forall (fun e => writes e = false) (fst (chosenName inv)).
Proof.
  unfold chosenName. destruct (given (projectNameArg inv)); simpl.
  - apply List.Forall_nil.
  - apply List.Forall_cons; [reflexivity | apply List.Forall_nil].
Qed.

Lemma banner_writes_nothing : Forall (fun e => writes e = false) banner.
Proof. unfold banner. repeat (apply List.Forall_cons; [reflexivity|]). apply List.Forall_nil. Qed.

Lemma exitWith_run effects (fs : gmap string Entry) :
  Forall (fun e => writes e = false) effects ->
  exitCode (exitWith effects fs) = Some 1
  /\ fsAfter (exitWith effects fs) = fs
  /\ Forall (fun e => writes e = false) (trace (exitWith effects fs))
  /\ last (trace (exitWith effects fs)) = Some (ProcessExit 1).
Proof.
  intros Hquiet. unfold exitWith. simpl.
  split; [reflexivity|]. split; [reflexivity|]. split.
  - apply Forall_app. split; [exact Hquiet|].
    apply List.Forall_cons; [reflexivity | apply List.Forall_nil].
  - apply last_snoc.
Qed.

(** C9. When the name the run works with, kebab-cased, names something that
    exists under the working directory, the action prints the error and
    exits with code 1; no copy and no write took place before the exit and
    the file system is as it was. *)
Theorem existing_directory_aborts
    (inv : Invocation) (fs : gmap string Entry) (typed : string) (entry : Entry) :
  snd (chosenName inv) = Some typed ->
  fs !! joinPath (cwd inv) (toKebabCase typed) = Some entry ->
  exitCode (action inv fs) = Some 1
  /\ fsAfter (action inv fs) = fs
  /\ Forall (fun e => writes e = false) (trace (action inv fs))
  /\ last (trace (action inv fs)) = Some (ProcessExit 1)
  /\ In (ConsoleLog ("Error: Directory " ++ Text.dq ++ toKebabCase typed ++ Text.dq
                     ++ " already exists.")%string)
        (trace (action inv fs)).
Proof.
  intros Hname Hexists. unfold action.
  pose proof (chosenName_asks_only inv) as Hasked.
  destruct (chosenName inv) as [asked chosen]. simpl in Hname, Hasked. subst chosen.
  cbv zeta. unfold existsSync. rewrite Hexists.
  set (msg := ConsoleLog _).
  destruct (exitWith_run (banner ++ asked ++ [msg]) fs) as (Hcode & Hfs & Hquiet & Hlast).
  { apply Forall_app. split; [apply banner_writes_nothing|].
    apply Forall_app. split; [exact Hasked|].
    apply List.Forall_cons; [reflexivity | apply List.Forall_nil]. }
  split; [exact Hcode|]. split; [exact Hfs|]. split; [exact Hquiet|].
  split; [exact Hlast|].
  unfold exitWith. cbn [trace]. rewrite !in_app_iff.
  left. right. right. by left.
Qed.

End CliFacts.

(** C9 on the example installation: 'My App' when /home/dev/my-app is
    there. *)
Lemma existing_directory_aborts_witness :
  Cli.exitCode (Cli.action (Cli.sampleInvocation "My App") Cli.sampleFs) = Some 1
  /\ Cli.fsAfter (Cli.action (Cli.sampleInvocation "My App") Cli.sampleFs)
     = Cli.sampleFs.
Proof.
  destruct (existing_directory_aborts (Cli.sampleInvocation "My App") Cli.sampleFs
              "My App" Cli.Dir eq_refl eq_refl) as (Hcode & Hfs & _).
  split; [exact Hcode | exact Hfs].
Defined.

(* ===================================================================== *)
(** ** The schema cache over a history of calls *)
(* ===================================================================== *)

Section SchemaCacheHistory.
Import SwaggerSchemas SchemaCalls.
Context {ZodTypeAny : Type} `{!Converter ZodTypeAny}.
Local Open Scope nat_scope.

Implicit Types (cache : gmap string Json.t) (calls : list (@Call ZodTypeAny)).

Lemma step_cache cache (c : @Call ZodTypeAny) :
  step cache c = snd (toJsonSchema (callSchema c) (callName c) cache).
Proof.
  destruct c as [schema name|schema name]; simpl; [done|].
  unfold getDefinition. by destruct (toJsonSchema schema name cache).
Qed.

Lemma step_lookup cache (c : @Call ZodTypeAny) name :
  step cache c !! name
  = match cache !! name with
    | Some cached => Some cached
    | None =>
        if String.eqb (callName c) name
        then Some (zodToJsonSchema (callSchema c) name)
        else None
    end.
Proof.
  rewrite step_cache. unfold toJsonSchema.
  destruct (String.eqb_spec (callName c) name) as [->|Hne].
  - destruct (cache !! name) as [cached|] eqn:Hc; simpl; [done|].
    apply lookup_insert_eq.
  - destruct (cache !! callName c) as [other|] eqn:Hc; simpl.
    + by destruct (cache !! name).
    + rewrite lookup_insert_ne by done. by destruct (cache !! name).
Qed.

(** X1. What the cache holds under a name after any history of calls: what
    it held before, or else the conversion of the schema of the earliest
    call made under that name; nothing when there was none. *)
Theorem cache_holds_first_conversion calls cache name :
  run calls cache !! name
  = match cache !! name with
    | Some cached => Some cached
    | None => (fun schema => zodToJsonSchema schema name) <$> firstCalled name calls
    end.
Proof.
  revert cache. induction calls as [|c calls IH]; intros cache.
  - simpl. by destruct (cache !! name).
  - change (run (c :: calls) cache) with (run calls (step cache c)).
    rewrite IH, step_lookup. simpl.
    destruct (cache !! name) as [cached|]; [done|].
    by destruct (String.eqb (callName c) name).
Qed.

Lemma step_grows cache (c : @Call ZodTypeAny) :
  cache ⊆ step cache c /\ size (step cache c) <= S (size cache).
Proof.
  rewrite step_cache. unfold toJsonSchema.
  destruct (cache !! callName c) as [cached|] eqn:Hc; simpl.
  - split; [done | lia].
  - split; [by apply insert_subseteq|].
    rewrite map_size_insert_None by done. lia.
Qed.

(** X2. The cache only grows, by at most one entry per call: every entry it
    had is still there with the same value after any history of calls. *)
Theorem cache_only_grows calls cache :
  cache ⊆ run calls cache
  /\ size (run calls cache) <= size cache + length calls.
Proof.
  revert cache. induction calls as [|c calls IH]; intros cache.
  - simpl. split; [done | lia].
  - change (run (c :: calls) cache) with (run calls (step cache c)).
    destruct (IH (step cache c)) as [Hsub Hsize].
    destruct (step_grows cache c) as [Hsub1 Hsize1].
    split; [by trans (step cache c)|]. simpl. lia.
Qed.

End SchemaCacheHistory.

(* ===================================================================== *)
(** ** Case transformations of create-tigra *)
(* ===================================================================== *)

Section StringFacts.
Import Text Shape.
Local Open Scope nat_scope.

Lemma append_nil_r (s : string) : (s ++ "")%string = s.
Proof.
  induction s as [|c s IH]; [done|].
  change (String c (s ++ "") = String c s)%string. by rewrite IH.
Qed.

Lemma length_append (a b : string) :
  String.length (a ++ b) = String.length a + String.length b.
Proof.
  induction a as [|c a IH]; [done|].
  change (S (String.length (a ++ b)) = S (String.length a + String.length b)).
  by rewrite IH.
Qed.

Lemma substring_all (s : string) : substring 0 (String.length s) s = s.
Proof. induction s as [|c s IH]; [done|]. simpl. by rewrite IH. Qed.

Lemma substring_skip (a b : string) n :
  substring (String.length a) n (a ++ b) = substring 0 n b.
Proof.
  induction a as [|c a IH]; [done|].
  change (substring (S (String.length a)) n (String c (a ++ b)) = substring 0 n b).
  simpl. exact IH.
Qed.

Lemma dropChars_append (a b : string) : dropChars (String.length a) (a ++ b) = b.
Proof.
  unfold dropChars. rewrite length_append, substring_skip.
  replace (String.length a + String.length b - String.length a)
    with (String.length b) by lia.
  apply substring_all.
Qed.

Lemma prefix_refl_append (a b : string) : String.prefix a (a ++ b) = true.
Proof.
  induction a as [|c a IH]; [by destruct b|].
  change (String.prefix (String c a) (String c (a ++ b)) = true).
  simpl. by destruct (ascii_dec c c).
Qed.

Lemma prefix_split (a s : string) :
  String.prefix a s = true -> exists rest, s = (a ++ rest)%string.
Proof.
  revert s. induction a as [|c a IH]; intros s Hp.
  - by exists s.
  - destruct s as [|d s]; [done|]. simpl in Hp.
    destruct (ascii_dec c d) as [->|]; [|done].
    destruct (IH s Hp) as [rest ->]. by exists rest.
Qed.

Lemma includes_prefix (sub s : string) :
  String.prefix sub s = true -> includes sub s = true.
Proof. intros Hp. destruct s; cbn [includes]; by rewrite Hp. Qed.

Lemma includes_append (sub a b : string) :
  includes sub (a ++ sub ++ b) = true.
Proof.
  induction a as [|c a IH].
  - change (includes sub (sub ++ b) = true).
    apply includes_prefix, prefix_refl_append.
  - change (includes sub (String c (a ++ sub ++ b)) = true).
    simpl. rewrite IH. apply orb_true_r.
Qed.

Lemma eqb_append_proper (a b : string) :
  b <> ""%string -> String.eqb (a ++ b) a = false.
Proof.
  intros Hb. apply String.eqb_neq. intros Heq.
  assert (Hlen : String.length (a ++ b) = String.length a) by by rewrite Heq.
  rewrite length_append in Hlen. destruct b; [done|]. simpl in Hlen. lia.
Qed.

(** *** The last character *)

Lemma substring_dropLast (s : string) :
  substring 0 (String.length s - 1) s = dropLast s.
Proof.
  induction s as [|c s IH]; [done|].
  destruct s as [|d s]; [done|].
  assert (Hlen : String.length (String d s) - 1 = String.length s)
    by (simpl; lia).
  rewrite Hlen in IH.
  change (substring 0 (S (String.length s)) (String c (String d s))
          = String c (dropLast (String d s))).
  change (String c (substring 0 (String.length s) (String d s))
          = String c (dropLast (String d s))).
  by rewrite IH.
Qed.

Lemma substring_last (s : string) :
  substring (String.length s - 1) 1 s
  = match lastChar s with
    | Some c => String c EmptyString
    | None => EmptyString
    end.
Proof.
  induction s as [|c s IH]; [done|].
  destruct s as [|d s]; [done|].
  change (substring (S (String.length s)) 1 (String c (String d s))
          = match lastChar (String d s) with
            | Some c => String c EmptyString
            | None => EmptyString
            end).
  assert (Hlen : String.length (String d s) - 1 = String.length s)
    by (simpl; lia).
  rewrite Hlen in IH. by rewrite <- IH.
Qed.

Lemma endsWith_lastChar (sep : ascii) (s : string) :
  endsWith (String sep EmptyString) s = bool_decide (lastChar s = Some sep).
Proof.
  unfold endsWith. rewrite substring_last.
  destruct s as [|c s]; [done|].
  assert (Hle : (String.length (String sep "") <=? String.length (String c s)) = true)
    by reflexivity.
  rewrite Hle. cbn [andb].
  destruct (lastChar (String c s)) as [d|].
  - cbn [String.eqb]. case_bool_decide as Hd.
    + injection Hd as ->. by rewrite Ascii.eqb_refl.
    + destruct (Ascii.eqb_spec d sep); [congruence | done].
  - by rewrite bool_decide_eq_false_2.
Qed.

Lemma stripTrailing_dropLast (sep : ascii) (s : string) :
  stripTrailing sep s
  = if bool_decide (lastChar s = Some sep) then dropLast s else s.
Proof.
  unfold stripTrailing. rewrite endsWith_lastChar, substring_dropLast. done.
Qed.

End StringFacts.

Section Separators.
Import Text Shape.
Variable keep : ascii -> bool.
Variable sep : ascii.
Hypothesis keep_sep : keep sep = false.

Let ok (c : ascii) : bool := keep c || Ascii.eqb c sep.

Lemma kept_not_sep c : keep c = true -> Ascii.eqb c sep = false.
Proof.
  intros Hc. destruct (Ascii.eqb_spec c sep) as [->|]; [congruence | done].
Qed.

Lemma replaceRuns_chars s inRun :
  allChars ok (replaceRuns keep sep s inRun) = true.
Proof.
  revert inRun. induction s as [|c s IH]; intros inRun; [done|]. simpl.
  destruct (keep c) eqn:Hc; simpl.
  - unfold ok at 1. by rewrite Hc, IH.
  - destruct inRun; [apply IH|]. simpl.
    unfold ok at 1. by rewrite Ascii.eqb_refl, orb_true_r, IH.
Qed.

Lemma replaceRuns_first s :
  firstChar (replaceRuns keep sep s true) <> Some sep.
Proof.
  induction s as [|c s IH]; [done|]. simpl.
  destruct (keep c) eqn:Hc; [|exact IH]. simpl.
  intros [= ->]. congruence.
Qed.

Lemma noAdjacent_cons c s :
  noAdjacent sep (String c s)
  = negb (Ascii.eqb c sep && bool_decide (firstChar s = Some sep))
    && noAdjacent sep s.
Proof.
  destruct s as [|d s].
  - cbn [noAdjacent firstChar]. by rewrite bool_decide_eq_false_2.
  - change (noAdjacent sep (String c (String d s)))
      with (negb (Ascii.eqb c sep && Ascii.eqb d sep)
            && noAdjacent sep (String d s)).
    cbn [firstChar]. destruct (Ascii.eqb_spec d sep) as [->|Hne].
    + by rewrite bool_decide_eq_true_2.
    + rewrite bool_decide_eq_false_2; [done|]. congruence.
Qed.

Lemma replaceRuns_noAdjacent s inRun :
  noAdjacent sep (replaceRuns keep sep s inRun) = true.
Proof.
  revert inRun. induction s as [|c s IH]; intros inRun; [done|]. simpl.
  destruct (keep c) eqn:Hc.
  - rewrite noAdjacent_cons, IH, (kept_not_sep c Hc). done.
  - destruct inRun; [apply IH|].
    rewrite noAdjacent_cons, IH.
    rewrite bool_decide_eq_false_2 by apply replaceRuns_first.
    by rewrite andb_false_r.
Qed.

(** *** Stripping the ends *)

Lemma stripLeading_shape s :
  allChars ok s = true -> noAdjacent sep s = true ->
  allChars ok (stripLeading sep s) = true
  /\ noAdjacent sep (stripLeading sep s) = true
  /\ firstChar (stripLeading sep s) <> Some sep.
Proof.
  intros Hchars Hadj. destruct s as [|c s]; [done|].
  rewrite noAdjacent_cons in Hadj. pose proof Hchars as Hrest.
  cbn [allChars] in Hrest. apply andb_true_iff in Hrest as [_ Hrest].
  apply andb_true_iff in Hadj as [Hhead Hadj].
  unfold stripLeading. destruct (Ascii.eqb_spec c sep) as [->|Hne].
  - split; [exact Hrest|]. split; [exact Hadj|].
    simpl in Hhead.
    apply negb_true_iff, bool_decide_eq_false in Hhead. exact Hhead.
  - split; [exact Hchars|].
    split; [rewrite noAdjacent_cons; by rewrite Hadj, (proj2 (Ascii.eqb_neq _ _) Hne)|].
    simpl. congruence.
Qed.

Lemma dropLast_chars (p : ascii -> bool) s :
  allChars p s = true -> allChars p (dropLast s) = true.
Proof.
  induction s as [|c s IH]; [done|]. intros Hchars.
  destruct s as [|d s]; [done|].
  change (dropLast (String c (String d s))) with (String c (dropLast (String d s))).
  cbn [allChars] in *. apply andb_true_iff in Hchars as [Hc Hrest].
  rewrite Hc. by apply IH.
Qed.

Lemma dropLast_first s c :
  firstChar (dropLast s) = Some c -> firstChar s = Some c.
Proof. destruct s as [|d [|e s]]; done. Qed.

Lemma dropLast_noAdjacent s :
  noAdjacent sep s = true -> noAdjacent sep (dropLast s) = true.
Proof.
  induction s as [|c s IH]; [done|]. intros Hadj.
  destruct s as [|d s]; [done|].
  change (dropLast (String c (String d s))) with (String c (dropLast (String d s))).
  rewrite noAdjacent_cons in Hadj. rewrite (noAdjacent_cons c).
  apply andb_true_iff in Hadj as [Hhead Hadj]. rewrite (IH Hadj), andb_true_r.
  destruct (Ascii.eqb c sep); [|done]. cbn [andb] in *.
  apply negb_true_iff, bool_decide_eq_false in Hhead.
  apply negb_true_iff, bool_decide_eq_false_2.
  intros Hd. apply Hhead. by apply dropLast_first.
Qed.

Lemma dropLast_last s :
  noAdjacent sep s = true -> lastChar s = Some sep ->
  lastChar (dropLast s) <> Some sep.
Proof.
  induction s as [|c s IH]; [done|]. intros Hadj Hlast.
  destruct s as [|d s]; [done|].
  rewrite noAdjacent_cons in Hadj. apply andb_true_iff in Hadj as [Hhead Hadj].
  destruct s as [|e s].
  - simpl in Hlast. injection Hlast as ->. simpl.
    intros [= ->]. rewrite Ascii.eqb_refl in Hhead. simpl in Hhead.
    by rewrite bool_decide_eq_true_2 in Hhead.
  - change (lastChar (dropLast (String c (String d (String e s)))))
      with (lastChar (dropLast (String d (String e s)))).
    by apply IH.
Qed.

Lemma stripTrailing_shape s :
  allChars ok s = true -> noAdjacent sep s = true -> firstChar s <> Some sep ->
  allChars ok (stripTrailing sep s) = true
  /\ noAdjacent sep (stripTrailing sep s) = true
  /\ firstChar (stripTrailing sep s) <> Some sep
  /\ lastChar (stripTrailing sep s) <> Some sep.
Proof.
  intros Hchars Hadj Hfirst. rewrite stripTrailing_dropLast.
  case_bool_decide as Hlast; [|done].
  split; [by apply dropLast_chars|]. split; [by apply dropLast_noAdjacent|].
  split; [|by apply dropLast_last].
  intros Hd. by apply Hfirst, dropLast_first.
Qed.

(** What [s.toLowerCase().replace(runs, sep).replace(ends, '')] gives for any
    [s]: words of kept characters joined by single separators. *)
Lemma stripEnds_replaceRuns_shape s :
  allChars ok (stripEnds sep (replaceRuns keep sep s false)) = true
  /\ noAdjacent sep (stripEnds sep (replaceRuns keep sep s false)) = true
  /\ firstChar (stripEnds sep (replaceRuns keep sep s false)) <> Some sep
  /\ lastChar (stripEnds sep (replaceRuns keep sep s false)) <> Some sep.
Proof.
  unfold stripEnds.
  destruct (stripLeading_shape (replaceRuns keep sep s false))
    as (Hc & Ha & Hf);
    [apply replaceRuns_chars | apply replaceRuns_noAdjacent |].
  by apply stripTrailing_shape.
Qed.

(** On such a string the two replacements change nothing. *)
Lemma replaceRuns_fixed s inRun :
  allChars ok s = true -> noAdjacent sep s = true ->
  (inRun = true -> firstChar s <> Some sep) ->
  replaceRuns keep sep s inRun = s.
Proof.
  revert inRun. induction s as [|c s IH]; intros inRun Hchars Hadj Hfirst; [done|].
  rewrite noAdjacent_cons in Hadj. apply andb_true_iff in Hadj as [Hhead Hadj].
  cbn [allChars] in Hchars. apply andb_true_iff in Hchars as [Hc Hrest].
  simpl. destruct (keep c) eqn:Hk.
  - by rewrite (IH false Hrest Hadj).
  - unfold ok in Hc. rewrite Hk in Hc. simpl in Hc.
    apply Ascii.eqb_eq in Hc as ->.
    destruct inRun; [by destruct Hfirst|].
    rewrite Ascii.eqb_refl in Hhead. simpl in Hhead.
    apply negb_true_iff, bool_decide_eq_false in Hhead.
    by rewrite (IH true Hrest Hadj).
Qed.

Lemma stripEnds_fixed s :
  firstChar s <> Some sep -> lastChar s <> Some sep -> stripEnds sep s = s.
Proof.
  intros Hfirst Hlast. unfold stripEnds.
  assert (Hlead : stripLeading sep s = s).
  { destruct s as [|c s]; [done|]. simpl.
    destruct (Ascii.eqb_spec c sep) as [->|]; [by destruct Hfirst | done]. }
  rewrite Hlead, stripTrailing_dropLast. by rewrite bool_decide_eq_false_2.
Qed.

End Separators.

Section CaseFacts.
Import Text Shape Cli.

Lemma lowerAscii_kept c : isLowerAlnum c = true -> lowerAscii c = c.
Proof.
  unfold isLowerAlnum, lowerAscii. cbv zeta.
  set (n := nat_of_ascii c). intros Hc.
  destruct ((65 <=? n)%nat && (n <=? 90)%nat) eqn:Hupper; [exfalso|done].
  apply andb_true_iff in Hupper as [H1 H2].
  apply Nat.leb_le in H1. apply Nat.leb_le in H2.
  apply orb_true_iff in Hc as [Hc|Hc]; apply andb_true_iff in Hc as [H3 H4];
    apply Nat.leb_le in H3; apply Nat.leb_le in H4; lia.
Qed.

Lemma toLowerCase_fixed (sep : ascii) s :
  lowerAscii sep = sep ->
  allChars (fun c => isLowerAlnum c || Ascii.eqb c sep) s = true ->
  toLowerCase s = s.
Proof.
  intros Hsep. induction s as [|c s IH]; [done|]. cbn [allChars toLowerCase].
  intros Hchars. apply andb_true_iff in Hchars as [Hc Hrest].
  rewrite (IH Hrest). f_equal.
  apply orb_true_iff in Hc as [Hc|Hc]; [by apply lowerAscii_kept|].
  by apply Ascii.eqb_eq in Hc as ->.
Qed.

Lemma joined_parts (sep : ascii) s :
  joined sep s = true <->
  allChars (fun c => isLowerAlnum c || Ascii.eqb c sep) s = true
  /\ noAdjacent sep s = true
  /\ firstChar s <> Some sep
  /\ lastChar s <> Some sep.
Proof.
  unfold joined. rewrite !andb_true_iff, !negb_true_iff, !bool_decide_eq_false.
  tauto.
Qed.

Lemma toKebabCase_joined (str : string) : joined "-" (toKebabCase str) = true.
Proof.
  apply joined_parts. unfold toKebabCase.
  apply (stripEnds_replaceRuns_shape isLowerAlnum "-" eq_refl).
Qed.

(** X3. Whatever is typed, the project name [toKebabCase] returns consists
    of characters [[a-z0-9]] and dashes only, has no two dashes in a row and
    neither starts nor ends with a dash (it may be empty). *)
Theorem toKebabCase_shape (str : string) :
  allChars (fun c => isLowerAlnum c || Ascii.eqb c "-") (toKebabCase str) = true
  /\ noAdjacent "-" (toKebabCase str) = true
  /\ firstChar (toKebabCase str) <> Some "-"%char
  /\ lastChar (toKebabCase str) <> Some "-"%char.
Proof.
  unfold toKebabCase.
  apply (stripEnds_replaceRuns_shape isLowerAlnum "-" eq_refl).
Qed.

(** X4. A name that already has that shape is returned as typed, so that
    [toKebabCase] applied twice gives what it gives applied once. *)
Theorem toKebabCase_idempotent (str : string) :
  (joined "-" str = true -> toKebabCase str = str)
  /\ toKebabCase (toKebabCase str) = toKebabCase str.
Proof.
  assert (Hfixed : forall s, joined "-" s = true -> toKebabCase s = s).
  { intros s Hs. apply joined_parts in Hs as (Hchars & Hadj & Hfirst & Hlast).
    unfold toKebabCase. rewrite (toLowerCase_fixed "-" s eq_refl Hchars).
    rewrite (replaceRuns_fixed isLowerAlnum "-" s false Hchars Hadj) by done.
    by apply stripEnds_fixed. }
  split; [apply Hfixed|].
  apply Hfixed, toKebabCase_joined.
Qed.

Lemma allChars_last (p : ascii -> bool) s c :
  allChars p s = true -> lastChar s = Some c -> p c = true.
Proof.
  induction s as [|d s IH]; [done|]. cbn [allChars]. intros Hchars Hlast.
  apply andb_true_iff in Hchars as [Hd Hrest].
  destruct s as [|e s]; [by injection Hlast as <- | by apply IH].
Qed.

Lemma lastChar_swapChar a b s :
  lastChar (swapChar a b s)
  = (fun c => if Ascii.eqb c a then b else c) <$> lastChar s.
Proof.
  induction s as [|c s IH]; [done|].
  destruct s as [|d s]; [done|].
  change (lastChar (swapChar a b (String d s))
          = (fun c => if Ascii.eqb c a then b else c) <$> lastChar (String d s)).
  exact IH.
Qed.

Lemma replaceRuns_swapChar s inRun :
  allChars (fun c => isLowerAlnum c || Ascii.eqb c "-") s = true ->
  noAdjacent "-" s = true ->
  (inRun = true -> firstChar s <> Some "-"%char) ->
  replaceRuns isLowerAlnum "_" s inRun = swapChar "-" "_" s.
Proof.
  revert inRun. induction s as [|c s IH]; intros inRun Hchars Hadj Hfirst; [done|].
  rewrite noAdjacent_cons in Hadj. apply andb_true_iff in Hadj as [Hhead Hadj].
  cbn [allChars] in Hchars. apply andb_true_iff in Hchars as [Hc Hrest].
  cbn [replaceRuns swapChar]. destruct (isLowerAlnum c) eqn:Hk.
  - rewrite (IH false Hrest Hadj) by done.
    by rewrite (kept_not_sep isLowerAlnum "-" eq_refl c Hk).
  - simpl in Hc. apply Ascii.eqb_eq in Hc as ->.
    destruct inRun; [by destruct Hfirst|].
    simpl in Hhead. apply negb_true_iff, bool_decide_eq_false in Hhead.
    by rewrite (IH true Hrest Hadj).
Qed.

(** X5. The snake-case name, which the action takes from the kebab-case
    project name, is that name with every dash turned into an underscore. *)
Theorem toSnakeCase_of_kebab (str : string) :
  toSnakeCase (toKebabCase str) = swapChar "-" "_" (toKebabCase str).
Proof.
  destruct (proj1 (joined_parts "-" _) (toKebabCase_joined str))
    as (Hchars & Hadj & Hfirst & Hlast).
  set (name := toKebabCase str) in *.
  unfold toSnakeCase. rewrite (toLowerCase_fixed "-" name eq_refl Hchars).
  rewrite (replaceRuns_swapChar name false Hchars Hadj) by done.
  apply stripEnds_fixed.
  - destruct name as [|c name]; [done|]. cbn [swapChar firstChar].
    cbn [allChars] in Hchars. apply andb_true_iff in Hchars as [Hc _].
    destruct (Ascii.eqb_spec c "-") as [->|Hne]; [by destruct Hfirst|].
    rewrite orb_false_r in Hc. intros [= ->]. done.
  - rewrite lastChar_swapChar.
    destruct (lastChar name) as [c|] eqn:Hl; [|done]. simpl.
    pose proof (allChars_last _ name c Hchars Hl) as Hc. simpl in Hc.
    destruct (Ascii.eqb_spec c "-") as [->|Hne]; [by destruct Hlast|].
    rewrite orb_false_r in Hc. intros [= ->]. done.
Qed.

End CaseFacts.

(* ===================================================================== *)
(** ** The copy filter of create-tigra *)
(* ===================================================================== *)

Section FilterFacts.
Import Text Cli.
Local Open Scope string_scope.

Lemma relative_below (dir rest : string) :
  relative dir (dir ++ "/" ++ rest) = rest.
Proof.
  unfold relative. rewrite eqb_append_proper by done.
  rewrite <- append_assoc.
  replace (String.length dir + 1)%nat with (String.length (dir ++ "/"))
    by (rewrite length_append; reflexivity).
  apply dropChars_append.
Qed.

Lemma relative_self (dir : string) : relative dir dir = "".
Proof. unfold relative. by rewrite String.eqb_refl. Qed.

(** The root of the template always passes the filter. *)
Lemma filterFunc_root (templateDir : string) :
  filterFunc templateDir templateDir = true.
Proof. unfold filterFunc. by rewrite relative_self. Qed.

Lemma filterFunc_refuses (templateDir src pattern : string) :
  In pattern excludePatterns ->
  relative templateDir src <> "" ->
  String.eqb (relative templateDir src) pattern
  || includes (sep ++ pattern) (relative templateDir src)
  || includes (pattern ++ sep) (relative templateDir src)
  || startsWith (pattern ++ sep) (relative templateDir src) = true ->
  filterFunc templateDir src = false.
Proof.
  intros Hin Hrel Hmatch. unfold filterFunc.
  rewrite (proj2 (String.eqb_neq _ _) Hrel).
  destruct (String.eqb (basename src) ".env" && negb (endsWith ".env.example" src));
    [done|].
  apply negb_false_iff, existsb_exists. by exists pattern.
Qed.

Lemma excludePatterns_nonempty (pattern rest : string) :
  In pattern excludePatterns -> pattern ++ rest <> "".
Proof.
  unfold excludePatterns. simpl.
  intros Hin. repeat (destruct Hin as [<- | Hin]; [done|]). done.
Qed.

Lemma append_nonempty_r (a b : string) : b <> "" -> a ++ b <> "".
Proof. intros Hb. destruct a; [done|]. discriminate. Qed.

(** X6. For each of the exclude patterns, the filter refuses the entry of
    that name at the top of the template, everything below it, and, inside
    any directory, every entry whose name merely begins with the pattern;
    so a [.env.example] inside a directory is refused like [.env]. *)
Theorem filterFunc_refuses_patterns :
  Forall (fun pattern =>
    forall templateDir dir suffix,
      filterFunc templateDir (templateDir ++ "/" ++ pattern) = false
      /\ filterFunc templateDir (templateDir ++ "/" ++ pattern ++ "/" ++ suffix) = false
      /\ filterFunc templateDir (templateDir ++ "/" ++ dir ++ "/" ++ pattern ++ suffix)
         = false)
    excludePatterns
  /\ (forall templateDir dir,
        filterFunc templateDir (templateDir ++ "/" ++ dir ++ "/.env.example") = false).
Proof.
  assert (Hall : forall pattern templateDir dir suffix,
    In pattern excludePatterns ->
    filterFunc templateDir (templateDir ++ "/" ++ pattern) = false
    /\ filterFunc templateDir (templateDir ++ "/" ++ pattern ++ "/" ++ suffix) = false
    /\ filterFunc templateDir (templateDir ++ "/" ++ dir ++ "/" ++ pattern ++ suffix)
       = false).
  { intros pattern templateDir dir suffix Hin. split; [|split].
    - apply (filterFunc_refuses _ _ pattern Hin); rewrite relative_below.
      + rewrite <- (append_nil_r pattern). by apply excludePatterns_nonempty.
      + by rewrite String.eqb_refl.
    - apply (filterFunc_refuses _ _ pattern Hin); rewrite relative_below.
      + by apply excludePatterns_nonempty.
      + unfold startsWith, sep. rewrite <- append_assoc, prefix_refl_append.
        by rewrite !orb_true_r.
    - apply (filterFunc_refuses _ _ pattern Hin); rewrite relative_below.
      + apply append_nonempty_r. done.
      + unfold sep.
        change ("/" ++ pattern ++ suffix) with (("/" ++ pattern) ++ suffix).
        rewrite includes_append. by rewrite orb_true_r.
  }
  split.
  - apply Forall_forall. intros pattern Hin templateDir dir suffix.
    apply Hall. by apply list_elem_of_In.
  - intros templateDir dir.
    destruct (Hall ".env" templateDir dir ".example") as (_ & _ & Hnested); [|exact Hnested].
    unfold excludePatterns. simpl. tauto.
Qed.

End FilterFacts.

(* ===================================================================== *)
(** ** What a run of create-tigra touches *)
(* ===================================================================== *)

Section ActionFacts.
Import Text Cli.
Local Open Scope string_scope.

Implicit Types (fs : gmap string Entry).

Lemma isUnder_self (dir : string) : isUnder dir dir = true.
Proof. unfold isUnder. by rewrite String.eqb_refl. Qed.

Lemma isUnder_below (dir rest : string) : isUnder dir (dir ++ sep ++ rest) = true.
Proof.
  unfold isUnder, startsWith. rewrite <- append_assoc, prefix_refl_append.
  apply orb_true_r.
Qed.

Lemma isUnder_split (dir p : string) :
  isUnder dir p = true -> p = dir \/ exists rest, p = dir ++ sep ++ rest.
Proof.
  unfold isUnder, startsWith. intros Hu.
  apply orb_true_iff in Hu as [Heq | Hpre].
  - left. by apply String.eqb_eq.
  - right. destruct (prefix_split _ _ Hpre) as [rest ->].
    exists rest. apply append_assoc.
Qed.

(** Where [fs.copy] puts what it finds at or below the template. *)
Lemma copy_destination (templateDir targetDir p : string) :
  isUnder templateDir p = true ->
  isUnder targetDir (targetDir ++ dropChars (String.length templateDir) p) = true.
Proof.
  intros Hu. destruct (isUnder_split _ _ Hu) as [-> | [rest ->]].
  - rewrite <- (append_nil_r templateDir) at 2.
    rewrite dropChars_append, append_nil_r. apply isUnder_self.
  - rewrite dropChars_append. apply isUnder_below.
Qed.

Lemma copyTree_elsewhere templateDir targetDir fs (q : string) :
  isUnder targetDir q = false ->
  copyTree templateDir targetDir fs !! q = fs !! q.
Proof.
  intros Hq. unfold copyTree. apply lookup_union_r.
  apply not_elem_of_list_to_map_1. intros Hin.
  apply list_elem_of_fmap in Hin as ([k e] & -> & Hin).
  apply list_elem_of_omap in Hin as ([p e0] & _ & Hcopy).
  simpl in Hcopy. destruct (reached templateDir p) eqn:Hreached; [|done].
  injection Hcopy as <- _. simpl in Hq.
  unfold reached in Hreached.
  apply andb_true_iff in Hreached as [Hreached _].
  apply andb_true_iff in Hreached as [Hunder _].
  by rewrite (copy_destination _ _ _ Hunder) in Hq.
Qed.

Lemma processFiles_elsewhere files targetDir config (q : string) : forall fs,
  isUnder targetDir q = false ->
  (processFiles files targetDir config fs).1.2 !! q = fs !! q.
Proof.
  induction files as [|file files IH]; intros fs Hq; [done|].
  cbn [processFiles].
  destruct (fs !! (targetDir ++ sep ++ file)) as [[content|]|] eqn:Hfile.
  - specialize (IH (<[targetDir ++ sep ++ file :=
                      File (replaceTemplateVariables content config)]> fs) Hq).
    destruct (processFiles files targetDir config _) as [[effects fs'] ok].
    simpl in *. rewrite IH. apply lookup_insert_ne.
    intros <-. by rewrite isUnder_below in Hq.
  - done.
  - by apply IH.
Qed.

Lemma processFiles_keeps files targetDir config (q : string) : forall fs,
  is_Some (fs !! q) ->
  is_Some ((processFiles files targetDir config fs).1.2 !! q).
Proof.
  induction files as [|file files IH]; intros fs Hq; [done|].
  cbn [processFiles].
  destruct (fs !! (targetDir ++ sep ++ file)) as [[content|]|] eqn:Hfile.
  - specialize (IH (<[targetDir ++ sep ++ file :=
                      File (replaceTemplateVariables content config)]> fs)).
    destruct (processFiles files targetDir config _) as [[effects fs'] ok].
    simpl in *. apply IH. rewrite lookup_insert_is_Some'. by right.
  - done.
  - by apply IH.
Qed.

Lemma createProject_elsewhere inv name targetDir config fs (q : string) :
  isUnder targetDir q = false ->
  fsAfter (createProject inv name targetDir config fs) !! q = fs !! q.
Proof.
  intros Hq. unfold createProject.
  destruct (negb (existsSync (templateDir inv) fs) || isUnder (templateDir inv) targetDir);
    [done|].
  pose proof (processFiles_elsewhere filesToProcess targetDir config q
                (copyTree (templateDir inv) targetDir fs) Hq) as Hfiles.
  destruct (processFiles filesToProcess targetDir config _) as [[effects fs'] ok].
  simpl in Hfiles. rewrite copyTree_elsewhere in Hfiles by done.
  by destruct ok.
Qed.

(** X7. A run changes nothing outside the directory it creates: every path
    that is neither the target directory nor below it holds afterwards
    what it held before, however the run ends. *)
Theorem action_leaves_the_rest
    (inv : Invocation) (fs : gmap string Entry) (typed q : string) :
  snd (chosenName inv) = Some typed ->
  isUnder (joinPath (cwd inv) (toKebabCase typed)) q = false ->
  fsAfter (action inv fs) !! q = fs !! q.
Proof.
  intros Hname Hq. unfold action.
  destruct (chosenName inv) as [asked chosen]. simpl in Hname. subst chosen.
  cbv zeta.
  destruct (existsSync (joinPath (cwd inv) (toKebabCase typed)) fs); [done|].
  destruct (gatherConfig inv (toKebabCase typed)) as [questions [config|]]; [|done].
  cbn [fsAfter]. by apply createProject_elsewhere.
Qed.

Lemma copyTree_root templateDir targetDir fs :
  existsSync templateDir fs = true ->
  is_Some (copyTree templateDir targetDir fs !! targetDir).
Proof.
  unfold existsSync. destruct (fs !! templateDir) as [e|] eqn:He; [intros _|done].
  unfold copyTree. apply lookup_union_is_Some. left.
  destruct (list_to_map _ !! targetDir) as [x|] eqn:Hl; [done|exfalso].
  apply not_elem_of_list_to_map_2 in Hl. apply Hl.
  apply list_elem_of_fmap. exists (targetDir, e). split; [done|].
  apply list_elem_of_omap. exists (templateDir, e).
  split; [by apply elem_of_map_to_list|]. simpl.
  assert (Hreached : reached templateDir templateDir = true).
  { unfold reached. by rewrite isUnder_self, filterFunc_root, String.eqb_refl. }
  rewrite Hreached. do 2 f_equal.
  rewrite <- (append_nil_r templateDir) at 2.
  by rewrite dropChars_append, append_nil_r.
Qed.

(** An action that ends without [process.exit] had a name to work with,
    found nothing at the target path, and leaves the target directory in
    place. *)
Lemma action_completed (inv : Invocation) (fs : gmap string Entry) :
  exitCode (action inv fs) = None ->
  exists typed,
    snd (chosenName inv) = Some typed
    /\ fs !! joinPath (cwd inv) (toKebabCase typed) = None
    /\ is_Some (fsAfter (action inv fs) !! joinPath (cwd inv) (toKebabCase typed)).
Proof.
  unfold action.
  destruct (chosenName inv) as [asked [typed|]]; [|done].
  cbv zeta.
  destruct (existsSync (joinPath (cwd inv) (toKebabCase typed)) fs) eqn:Hex; [done|].
  assert (Htarget : fs !! joinPath (cwd inv) (toKebabCase typed) = None).
  { unfold existsSync in Hex. by destruct (fs !! _). }
  destruct (gatherConfig inv (toKebabCase typed)) as [questions [config|]]; [|done].
  cbn [exitCode fsAfter]. intros Hcode.
  exists typed. split; [done|]. split; [done|].
  unfold createProject in *.
  destruct (existsSync (templateDir inv) fs) eqn:Htemplate; [|done].
  destruct (isUnder (templateDir inv) _); [done|]. cbn [negb orb] in *.
  pose proof (processFiles_keeps filesToProcess
                (joinPath (cwd inv) (toKebabCase typed)) config
                (joinPath (cwd inv) (toKebabCase typed))
                (copyTree (templateDir inv) (joinPath (cwd inv) (toKebabCase typed)) fs)
                (copyTree_root _ _ _ Htemplate)) as Hkept.
  destruct (processFiles filesToProcess _ config _) as [[effects fs'] ok].
  cbn [fst snd] in Hkept. destruct ok; [cbn [fsAfter]; exact Hkept | discriminate Hcode].
Qed.

(** X8. A run of the program that ends without [process.exit] is one of
    two: the action ran to its end, it had a name to work with, found
    nothing at the target path and leaves the target directory in place; or
    standard input was closed and the run stopped at a prompt, the file
    system as it was and nothing copied or written. *)
Theorem parse_without_exit
    (stdinOpen : bool) (inv : Invocation) (fs : gmap string Entry) :
  exitCode (parse stdinOpen inv fs) = None ->
  (exists typed,
     snd (chosenName inv) = Some typed
     /\ fs !! joinPath (cwd inv) (toKebabCase typed) = None
     /\ is_Some (fsAfter (parse stdinOpen inv fs)
                   !! joinPath (cwd inv) (toKebabCase typed)))
  \/ (stdinOpen = false
      /\ fsAfter (parse stdinOpen inv fs) = fs
      /\ Forall (fun e => writes e = false) (trace (parse stdinOpen inv fs))).
Proof.
  assert (Hpending : forall question,
    Forall (fun e => writes e = false) (banner ++ [Prompt question])%list).
  { intros question. apply Forall_app. split; [apply banner_writes_nothing|].
    apply List.Forall_cons; [reflexivity | apply List.Forall_nil]. }
  unfold parse. destruct stdinOpen.
  { intros Hcode. left. by apply action_completed. }
  destruct (given (projectNameArg inv)) as [typed|].
  - destruct (existsSync _ fs || yes inv).
    + intros Hcode. left. by apply action_completed.
    + intros _. right. split; [reflexivity|]. split; [reflexivity|].
      apply Hpending.
  - intros _. right. split; [reflexivity|]. split; [reflexivity|].
    apply Hpending.
Qed.

(** X9. Cancelling a prompt ends the run with exit code 1 and the line
    'Cancelled.', nothing copied or written: the prompt for the name when no
    name was given, and, without [--yes], the prompt for the display name. *)
Theorem action_cancelled (inv : Invocation) (fs : gmap string Entry) :
  snd (chosenName inv) = None
  \/ (exists typed,
        snd (chosenName inv) = Some typed
        /\ fs !! joinPath (cwd inv) (toKebabCase typed) = None
        /\ yes inv = false
        /\ given (answeredDisplayName inv) = None) ->
  exitCode (action inv fs) = Some 1
  /\ fsAfter (action inv fs) = fs
  /\ Forall (fun e => writes e = false) (trace (action inv fs))
  /\ In (ConsoleLog "Cancelled.") (trace (action inv fs)).
Proof.
  intros Hcancel. unfold action.
  pose proof (chosenName_asks_only inv) as Hasked.
  destruct (chosenName inv) as [asked chosen]. simpl in Hcancel, Hasked.
  assert (Hquiet : forall effects,
    Forall (fun e => writes e = false) effects ->
    Forall (fun e => writes e = false)
      (banner ++ asked ++ effects ++ [ConsoleLog "Cancelled."])%list).
  { intros effects Heffects.
    apply Forall_app. split; [apply banner_writes_nothing|].
    apply Forall_app. split; [exact Hasked|].
    apply Forall_app. split; [exact Heffects|].
    apply List.Forall_cons; [reflexivity | apply List.Forall_nil]. }
  destruct Hcancel as [-> | (typed & -> & Hfree & Hyes & Hname)].
  - destruct (exitWith_run (banner ++ asked ++ [ConsoleLog "Cancelled."])%list fs
                (Hquiet [] (List.Forall_nil _)))
      as (Hcode & Hfs & Hw & _).
    split; [exact Hcode|]. split; [exact Hfs|]. split; [exact Hw|].
    unfold exitWith. cbn [trace]. rewrite !in_app_iff. left. right. right. by left.
  - cbv zeta. unfold existsSync. rewrite Hfree.
    unfold gatherConfig. rewrite Hyes, Hname.
    destruct (exitWith_run
                (banner ++ asked
                 ++ [Prompt "Display name:"; Prompt "Description (optional):";
                     Prompt "Author name (optional):"]
                 ++ [ConsoleLog "Cancelled."])%list fs) as (Hcode & Hfs & Hw & _).
    { apply Hquiet. repeat (apply List.Forall_cons; [reflexivity|]).
      apply List.Forall_nil. }
    split; [exact Hcode|]. split; [exact Hfs|]. split; [exact Hw|].
    unfold exitWith. cbn [trace]. rewrite !in_app_iff.
    left. right. right. right. by left.
Qed.

End ActionFacts.

(** X7 on the example installation: creating 'New App' leaves the notes of
    the neighbouring project alone. *)
Lemma action_leaves_the_rest_witness :
  Cli.fsAfter (Cli.action (Cli.sampleInvocation "New App") Cli.sampleFs)
    !! "/home/dev/my-app/notes.txt"
  = Some (Cli.File "keep me").
Proof.
  rewrite (action_leaves_the_rest (Cli.sampleInvocation "New App") Cli.sampleFs
             "New App" "/home/dev/my-app/notes.txt" eq_refl eq_refl).
  reflexivity.
Defined.

(** X8 on the example installation, standard input closed and no [--yes]:
    the run stops at the prompt for the display name and creates nothing. *)
Lemma parse_without_exit_witness :
  (exists typed,
     snd (Cli.chosenName Samples.cancelledAtDisplayName) = Some typed
     /\ Cli.sampleFs !! Cli.joinPath "/home/dev" (Cli.toKebabCase typed) = None
     /\ is_Some (Cli.fsAfter (Cli.parse false Samples.cancelledAtDisplayName Cli.sampleFs)
                   !! Cli.joinPath "/home/dev" (Cli.toKebabCase typed)))
  \/ (false = false
      /\ Cli.fsAfter (Cli.parse false Samples.cancelledAtDisplayName Cli.sampleFs)
         = Cli.sampleFs
      /\ Forall (fun e => Cli.writes e = false)
           (Cli.trace (Cli.parse false Samples.cancelledAtDisplayName Cli.sampleFs))).
Proof.
  apply (parse_without_exit false Samples.cancelledAtDisplayName Cli.sampleFs).
  vm_compute. reflexivity.
Defined.

(** The same run with standard input closed: the banner, the first question,
    and the end, with no exit code set and no directory made. *)
Example parse_stdin_closed :
  Cli.parse false Samples.cancelledAtDisplayName Cli.sampleFs
  = {| Cli.trace := (Cli.banner ++ [Cli.Prompt "Display name:"])%list;
       Cli.fsAfter := Cli.sampleFs;
       Cli.exitCode := None |}
  /\ Cli.fsAfter (Cli.parse false Samples.cancelledAtDisplayName Cli.sampleFs)
       !! "/home/dev/new-app" = None
  /\ is_Some (Cli.fsAfter (Cli.parse true (Cli.sampleInvocation "New App") Cli.sampleFs)
                !! "/home/dev/new-app").
Proof.
  split; [reflexivity|]. split; [reflexivity|]. vm_compute. by eexists.
Qed.

(** X9 on a run whose display-name prompt is cancelled. *)
Lemma action_cancelled_witness :
  Cli.exitCode (Cli.action Samples.cancelledAtDisplayName Cli.sampleFs) = Some 1
  /\ Cli.fsAfter (Cli.action Samples.cancelledAtDisplayName Cli.sampleFs) = Cli.sampleFs.
Proof.
  destruct (action_cancelled Samples.cancelledAtDisplayName Cli.sampleFs)
    as (Hcode & Hfs & _).
  - right. exists "New App". repeat split; reflexivity.
  - split; [exact Hcode | exact Hfs].
Defined.

(* ===================================================================== *)
(** ** Template variables *)
(* ===================================================================== *)

Section TemplateFacts.
Import Text Cli.
Local Open Scope string_scope.

Lemma prefix_trans (a b s : string) :
  String.prefix a b = true -> String.prefix b s = true -> String.prefix a s = true.
Proof.
  revert b s. induction a as [|c a IH]; intros b s Hab Hbs; [by destruct s|].
  destruct b as [|d b]; [done|]. destruct s as [|e s]; [done|].
  simpl in *. destruct (ascii_dec c d) as [->|]; [|done].
  destruct (ascii_dec d e) as [->|]; [|done]. by apply (IH b).
Qed.

Lemma includes_cons sub c s :
  includes sub (String c s) = String.prefix sub (String c s) || includes sub s.
Proof. reflexivity. Qed.

(** Where a string does not occur, neither does a longer one that starts
    with it. *)
Lemma includes_longer (a b s : string) :
  String.prefix a b = true -> includes a s = false -> includes b s = false.
Proof.
  intros Hab. induction s as [|c s IH].
  - cbn [includes]. rewrite !orb_false_r. intros Ha.
    destruct (String.prefix b "") eqn:Hb; [|done].
    by rewrite (prefix_trans a b "" Hab Hb) in Ha.
  - rewrite !includes_cons. intros Ha.
    apply orb_false_iff in Ha as [Ha Hrest]. rewrite (IH Hrest), orb_false_r.
    destruct (String.prefix b (String c s)) eqn:Hb; [|done].
    by rewrite (prefix_trans a b _ Hab Hb) in Ha.
Qed.

Lemma replaceAll_absent (key value s : string) :
  includes key s = false -> replaceAll key value s = s.
Proof.
  unfold replaceAll. induction s as [|c s IH]; [done|].
  rewrite includes_cons. intros Hk. apply orb_false_iff in Hk as [Hhere Hrest].
  cbn [replaceAllFrom]. rewrite Hhere. by rewrite (IH Hrest).
Qed.

(** X10. A file in which [{{] does not occur comes out of
    [replaceTemplateVariables] as it went in, whatever the configuration. *)
Theorem replaceTemplateVariables_without_placeholders
    (content : string) (config : Config) :
  includes "{{" content = false ->
  replaceTemplateVariables content config = content.
Proof.
  intros Hnone. unfold replaceTemplateVariables, replacements.
  cbn [fold_left fst snd].
  repeat (rewrite (replaceAll_absent _ _ content);
          [|by apply (includes_longer "{{" _ content)]).
  reflexivity.
Qed.

End TemplateFacts.

(** X10 on a line of a lock file. *)
Lemma replaceTemplateVariables_without_placeholders_witness :
  Cli.replaceTemplateVariables "lockfileVersion: 3 {}" Samples.sampleConfig
  = "lockfileVersion: 3 {}".
Proof.
  apply (replaceTemplateVariables_without_placeholders
           "lockfileVersion: 3 {}" Samples.sampleConfig).
  reflexivity.
Defined.

(* ===================================================================== *)
(** ** The loop over [filesToProcess] *)
(* ===================================================================== *)

Section ProcessFacts.
Import Text Cli.
Local Open Scope string_scope.

Implicit Types (fs : gmap string Entry).

Lemma append_inj_l (a x y : string) : a ++ x = a ++ y -> x = y.
Proof.
  induction a as [|c a IH]; [done|].
  change (String c (a ++ x) = String c (a ++ y) -> x = y).
  intros [= Heq]. by apply IH.
Qed.

Lemma processFiles_untouched files targetDir config (q : string) : forall fs,
  (forall file, In file files -> q <> targetDir ++ sep ++ file) ->
  (processFiles files targetDir config fs).1.2 !! q = fs !! q.
Proof.
  induction files as [|file files IH]; intros fs Hq; [done|].
  cbn [processFiles].
  assert (Hrest : forall f, In f files -> q <> targetDir ++ sep ++ f)
    by (intros f Hf; apply Hq; by apply in_cons).
  destruct (fs !! (targetDir ++ sep ++ file)) as [[content|]|] eqn:Hfile.
  - specialize (IH (<[targetDir ++ sep ++ file :=
                      File (replaceTemplateVariables content config)]> fs) Hrest).
    destruct (processFiles files targetDir config _) as [[effects fs'] ok].
    simpl in *. rewrite IH. apply lookup_insert_ne.
    intros <-. apply (Hq file); [apply in_eq | done].
  - done.
  - by apply IH.
Qed.

Lemma processFiles_substitutes files targetDir config : forall fs file content,
  List.NoDup files ->
  In file files ->
  fs !! (targetDir ++ sep ++ file) = Some (File content) ->
  (processFiles files targetDir config fs).2 = true ->
  (processFiles files targetDir config fs).1.2 !! (targetDir ++ sep ++ file)
  = Some (File (replaceTemplateVariables content config)).
Proof.
  induction files as [|head files IH]; intros fs file content Hnodup Hin Hfile Hok;
    [done|].
  apply List.NoDup_cons_iff in Hnodup as [Hhead Hnodup].
  cbn [processFiles] in *.
  destruct (fs !! (targetDir ++ sep ++ head)) as [[c0|]|] eqn:Hheadfile.
  - pose proof (processFiles_untouched files targetDir config
                  (targetDir ++ sep ++ head)
                  (<[targetDir ++ sep ++ head :=
                      File (replaceTemplateVariables c0 config)]> fs)) as Hkeep.
    specialize (IH (<[targetDir ++ sep ++ head :=
                      File (replaceTemplateVariables c0 config)]> fs)).
    destruct (processFiles files targetDir config _) as [[effects fs'] ok].
    simpl in *. destruct Hin as [<- | Hin].
    + assert (c0 = content) as -> by congruence.
      rewrite Hkeep; [apply lookup_insert_eq|].
      intros f Hf Heq. apply append_inj_l, append_inj_l in Heq. by subst f.
    + apply IH; try done. rewrite lookup_insert_ne; [done|].
      intros Heq. apply append_inj_l, append_inj_l in Heq. by subst file.
  - done.
  - destruct Hin as [<- | Hin]; [congruence|]. by apply IH.
Qed.

(** X11. When the loop over [filesToProcess] runs to its end, each listed
    file that was there holds its former content with the template
    variables substituted, once; and a path that is not one of the listed
    files under the target holds what it held. *)
Theorem processFiles_rewrites_listed_files
    (targetDir : string) (config : Config) (fs : gmap string Entry)
    (file content : string) :
  In file filesToProcess ->
  fs !! (targetDir ++ sep ++ file) = Some (File content) ->
  (processFiles filesToProcess targetDir config fs).2 = true ->
  (processFiles filesToProcess targetDir config fs).1.2 !! (targetDir ++ sep ++ file)
  = Some (File (replaceTemplateVariables content config))
  /\ (forall q, (forall f, In f filesToProcess -> q <> targetDir ++ sep ++ f) ->
        (processFiles filesToProcess targetDir config fs).1.2 !! q = fs !! q).
Proof.
  intros Hin Hfile Hok. split.
  - apply processFiles_substitutes; try done.
    unfold filesToProcess.
    repeat (apply List.NoDup_cons; [simpl; intuition discriminate|]).
    apply List.NoDup_nil.
  - intros q. apply processFiles_untouched.
Qed.

End ProcessFacts.

(** X11 on a copied package.json. *)
Lemma processFiles_rewrites_listed_files_witness :
  (Cli.processFiles Cli.filesToProcess "/home/dev/new-app" Samples.sampleConfig
     {[ "/home/dev/new-app/server/package.json" := Cli.File "name: {{PROJECT_NAME}}" ]}).1.2
    !! "/home/dev/new-app/server/package.json"
  = Some (Cli.File "name: new-app").
Proof.
  destruct (processFiles_rewrites_listed_files "/home/dev/new-app" Samples.sampleConfig
              {[ "/home/dev/new-app/server/package.json"
                 := Cli.File "name: {{PROJECT_NAME}}" ]}
              "server/package.json" "name: {{PROJECT_NAME}}")
    as [Hfile _].
  - simpl. tauto.
  - reflexivity.
  - vm_compute. reflexivity.
  - etrans; [exact Hfile | reflexivity].
Defined.

(* ===================================================================== *)
(** ** scripts/setup-env.js *)
(* ===================================================================== *)

Section SetupEnvFacts.
Import Cli SetupEnv.

Implicit Types (fs : gmap string Entry).

(** X12. [setupEnv] never overwrites or removes anything: every entry of
    the file system is still there, unchanged, afterwards, the .env
    included when there was one; the only path that can differ is the .env,
    and when the run ends by creating it, it holds the content of
    example.env. *)
Theorem setupEnv_never_overwrites (ROOT_DIR : string) (fs : gmap string Entry) :
  fs ⊆ SetupEnv.fsAfter (setupEnv ROOT_DIR fs)
  /\ (forall q, q <> ENV_FILE ROOT_DIR ->
        SetupEnv.fsAfter (setupEnv ROOT_DIR fs) !! q = fs !! q)
  /\ (ending (setupEnv ROOT_DIR fs) = Created ->
      fs !! ENV_FILE ROOT_DIR = None
      /\ is_Some (fs !! EXAMPLE_ENV_FILE ROOT_DIR)
      /\ SetupEnv.fsAfter (setupEnv ROOT_DIR fs) !! ENV_FILE ROOT_DIR
         = fs !! EXAMPLE_ENV_FILE ROOT_DIR).
Proof.
  unfold setupEnv, existsSync.
  destruct (fs !! ENV_FILE ROOT_DIR) as [e|] eqn:He; [by repeat split|].
  destruct (fs !! EXAMPLE_ENV_FILE ROOT_DIR) as [[content|]|] eqn:Hex;
    try by repeat split.
  cbn [SetupEnv.fsAfter ending]. split; [by apply insert_subseteq|].
  split; [intros q Hq; by apply lookup_insert_ne|].
  intros _. split; [done|]. split; [done|]. apply lookup_insert_eq.
Qed.

(** X13. Running [setupEnv] again changes nothing more and ends with the
    same exit code; after a run that created the .env, the next one finds it
    and returns early. *)
Theorem setupEnv_twice (ROOT_DIR : string) (fs : gmap string Entry) :
  SetupEnv.fsAfter (setupEnv ROOT_DIR (SetupEnv.fsAfter (setupEnv ROOT_DIR fs)))
  = SetupEnv.fsAfter (setupEnv ROOT_DIR fs)
  /\ SetupEnv.exitCode (setupEnv ROOT_DIR (SetupEnv.fsAfter (setupEnv ROOT_DIR fs)))
     = SetupEnv.exitCode (setupEnv ROOT_DIR fs)
  /\ (ending (setupEnv ROOT_DIR fs) = Created ->
      ending (setupEnv ROOT_DIR (SetupEnv.fsAfter (setupEnv ROOT_DIR fs)))
      = AlreadyExists).
Proof.
  destruct (fs !! ENV_FILE ROOT_DIR) as [e|] eqn:He.
  - assert (Hrun : setupEnv ROOT_DIR fs
                   = {| ending := AlreadyExists; SetupEnv.fsAfter := fs;
                        SetupEnv.exitCode := None |})
      by (unfold setupEnv, existsSync; by rewrite He).
    rewrite Hrun. cbn [SetupEnv.fsAfter SetupEnv.exitCode ending]. by rewrite Hrun.
  - destruct (fs !! EXAMPLE_ENV_FILE ROOT_DIR) as [[content|]|] eqn:Hex.
    + assert (Hrun : setupEnv ROOT_DIR fs
                     = {| ending := Created;
                          SetupEnv.fsAfter := <[ENV_FILE ROOT_DIR := File content]> fs;
                          SetupEnv.exitCode := None |})
        by (unfold setupEnv, existsSync; by rewrite He, Hex).
      assert (Hagain : setupEnv ROOT_DIR (<[ENV_FILE ROOT_DIR := File content]> fs)
                       = {| ending := AlreadyExists;
                            SetupEnv.fsAfter := <[ENV_FILE ROOT_DIR := File content]> fs;
                            SetupEnv.exitCode := None |})
        by (unfold setupEnv, existsSync; by rewrite lookup_insert_eq).
      rewrite Hrun. cbn [SetupEnv.fsAfter SetupEnv.exitCode ending]. by rewrite Hagain.
    + assert (Hrun : setupEnv ROOT_DIR fs
                     = {| ending := CopyFailed; SetupEnv.fsAfter := fs;
                          SetupEnv.exitCode := Some 1 |})
        by (unfold setupEnv, existsSync; by rewrite He, Hex).
      rewrite Hrun. cbn [SetupEnv.fsAfter SetupEnv.exitCode ending]. by rewrite Hrun.
    + assert (Hrun : setupEnv ROOT_DIR fs
                     = {| ending := ExampleMissing; SetupEnv.fsAfter := fs;
                          SetupEnv.exitCode := Some 1 |})
        by (unfold setupEnv, existsSync; by rewrite He, Hex).
      rewrite Hrun. cbn [SetupEnv.fsAfter SetupEnv.exitCode ending]. by rewrite Hrun.
Qed.

End SetupEnvFacts.

(* ===================================================================== *)
(** ** [generateSecureSecret] *)
(* ===================================================================== *)

Section SecretFacts.
Import Shape Secret.
Local Open Scope nat_scope.

Lemma allChars_append (p : ascii -> bool) (a b : string) :
  allChars p (a ++ b) = allChars p a && allChars p b.
Proof.
  induction a as [|c a IH]; [done|].
  change (p c && allChars p (a ++ b) = p c && allChars p a && allChars p b).
  by rewrite IH, andb_assoc.
Qed.

Lemma get_in_range (s : string) i :
  i < String.length s -> exists c, String.get i s = Some c.
Proof.
  revert i. induction s as [|d s IH]; intros i Hi; simpl in Hi; [lia|].
  destruct i as [|i]; simpl; [by exists d|]. apply IH. lia.
Qed.

Lemma get_includes (s : string) i c :
  String.get i s = Some c -> Text.includes (String c EmptyString) s = true.
Proof.
  revert i. induction s as [|d s IH]; intros i Hget; [done|].
  rewrite includes_cons. destruct i as [|i]; simpl in Hget.
  - injection Hget as ->. simpl. destruct (ascii_dec c c); [|done].
    by destruct s.
  - rewrite (IH i Hget). apply orb_true_r.
Qed.

Lemma charAt_in_range (s : string) i :
  i < String.length s ->
  String.length (charAt i s) = 1
  /\ allChars (fun c => Text.includes (String c EmptyString) s) (charAt i s) = true.
Proof.
  intros Hi. unfold charAt. destruct (get_in_range s i Hi) as [c Hc].
  rewrite Hc. simpl. by rewrite (get_includes s i c Hc).
Qed.

Lemma generateFrom_shape (draw : nat -> nat) remaining : forall i result,
  (forall k, i <= k < i + remaining -> draw k < String.length chars) ->
  String.length (generateFrom draw i remaining result)
  = String.length result + remaining
  /\ (allChars (fun c => Text.includes (String c EmptyString) chars) result = true ->
      allChars (fun c => Text.includes (String c EmptyString) chars)
        (generateFrom draw i remaining result) = true).
Proof.
  induction remaining as [|remaining IH]; intros i result Hdraw.
  - simpl. split; [lia | done].
  - cbn [generateFrom].
    destruct (charAt_in_range chars (draw i)) as [Hlen Hchars];
      [apply Hdraw; lia|].
    destruct (IH (S i) (result ++ charAt (draw i) chars)%string) as [IHlen IHchars];
      [intros k Hk; apply Hdraw; lia|].
    split.
    + rewrite IHlen, length_append, Hlen. lia.
    + intros Hresult. apply IHchars. by rewrite allChars_append, Hresult, Hchars.
Qed.

(** X14. As long as each draw is an index into the alphabet, the secret
    has exactly the requested length, and each of its characters is one of
    the alphabet. *)
Theorem generateSecureSecret_shape (length : nat) (draw : nat -> nat) :
  (forall i, i < length -> draw i < String.length chars) ->
  String.length (generateSecureSecret length draw) = length
  /\ allChars (fun c => Text.includes (String c EmptyString) chars)
       (generateSecureSecret length draw) = true.
Proof.
  intros Hdraw. unfold generateSecureSecret.
  destruct (generateFrom_shape draw length 0 "") as [Hlen Hchars].
  - intros k Hk. apply Hdraw. lia.
  - split; [exact Hlen | by apply Hchars].
Qed.

End SecretFacts.

(** X14 on the 48 characters of a JWT secret, drawn in alphabet order. *)
Lemma generateSecureSecret_shape_witness :
  String.length (Secret.generateSecureSecret 48 (fun i => i)) = 48%nat.
Proof.
  apply (generateSecureSecret_shape 48 (fun i => i)).
  intros i Hi. change (String.length Secret.chars) with 70%nat. lia.
Defined.

(* ===================================================================== *)
(** ** The route tables as a whole *)
(* ===================================================================== *)

Section RouteTableFacts.
Import Envelope Routes Lifecycle RateLimitGate Server RouteDocs.
Context `{ErrorText} `{Validator}.
Variable guard : Z -> Guard -> Request -> HookResult.

(** X15. In the three route files the documentation and the guards agree:
    a route documents bearerAuth exactly when its preHandler starts with
    [authenticate], in which case a request that passes the rate limit and
    the validation of the route's schema and that [authenticate] refuses
    gets that refusal, and neither a role guard nor the handler runs; a
    route that does not document it has no preHandler at all; and each
    documented entry belongs to a route of its file. *)
Theorem security_docs_match_guards :
  Forall (fun '(routes, security) =>
    Forall (fun r =>
      (documentsBearerAuth security r = true
       /\ (exists rest, preHandler r = authenticate :: rest)
       /\ (forall globalLimit now req counters reply,
             fst (onRequest globalLimit now r req counters) = Allowed ->
             validate r req = true ->
             guard now authenticate req = Halt reply ->
             fst (serve guard globalLimit now r req counters) = Replied reply))
      \/ (documentsBearerAuth security r = false /\ preHandler r = []))
      routes
    /\ Forall (fun mu => is_Some (findRoute (fst mu) (snd mu) routes)) security)
    plugins.
Proof.
  assert (Hguarded : forall (r : Route) security rest,
    documentsBearerAuth security r = true ->
    preHandler r = authenticate :: rest ->
    (documentsBearerAuth security r = true
     /\ (exists rest, preHandler r = authenticate :: rest)
     /\ (forall globalLimit now req counters reply,
           fst (onRequest globalLimit now r req counters) = Allowed ->
           validate r req = true ->
           guard now authenticate req = Halt reply ->
           fst (serve guard globalLimit now r req counters) = Replied reply))
    \/ (documentsBearerAuth security r = false /\ preHandler r = [])).
  { intros r security rest Hdoc Hchain. left. split; [exact Hdoc|].
    split; [by exists rest|].
    intros globalLimit now req counters reply Hpass Hvalid Hhalt.
    rewrite serve_outcome, Hpass.
    by apply (first_hook_halts guard now r authenticate rest). }
  unfold plugins.
  repeat (apply List.Forall_cons; [split|]); try apply List.Forall_nil.
  - apply Forall_forall. intros r Hr. unfold authRoutes in Hr.
    each_route Hr; first [by right | by eapply Hguarded].
  - unfold authSecurity. by repeat (apply List.Forall_cons; [by eexists|]).
  - apply Forall_forall. intros r Hr. unfold resourceRoutes in Hr.
    each_route Hr; first [by right | by eapply Hguarded].
  - unfold resourceSecurity. by repeat (apply List.Forall_cons; [by eexists|]).
  - apply Forall_forall. intros r Hr. unfold adminRoutes in Hr.
    each_route Hr; first [by right | by eapply Hguarded].
  - unfold adminSecurity. by repeat (apply List.Forall_cons; [by eexists|]).
Qed.

Lemma prefixed_keys_distinct (API_PREFIX : string) (keys : list (Method * string)) :
  NoDup keys ->
  NoDup ((fun mu : Method * string => (fst mu, (API_PREFIX ++ snd mu)%string)) <$> keys).
Proof.
  intros Hkeys. apply NoDup_fmap_2; [|exact Hkeys].
  intros [m1 u1] [m2 u2] [= -> Hu]. f_equal. by apply append_inj_l in Hu.
Qed.

(** X16. Whatever [API_PREFIX] is, no two of the routes that [buildApp]
    registers from the auth, resources and admin modules have the same
    method and url, so none of them collides with or hides another. *)
Theorem registered_routes_distinct (API_PREFIX : string) :
  NoDup (routeKey <$> moduleRoutes API_PREFIX).
Proof.
  assert (Hkeys : routeKey <$> moduleRoutes API_PREFIX
    = (fun mu : Method * string => (fst mu, (API_PREFIX ++ snd mu)%string))
        <$> (((fun r => (method r, ("/auth" ++ url r)%string)) <$> authRoutes)
             ++ ((fun r => (method r, ("/resources" ++ url r)%string)) <$> resourceRoutes)
             ++ ((fun r => (method r, ("/admin" ++ url r)%string)) <$> adminRoutes))%list).
  { unfold moduleRoutes, buildApp, register, authPrefix, resourcesPrefix, adminPrefix.
    cbn [app]. rewrite !fmap_app, <- !list_fmap_compose.
    f_equal; [|f_equal]; apply list_fmap_ext; intros i r _;
      unfold routeKey, withPrefix; cbn; by rewrite append_assoc. }
  rewrite Hkeys. apply prefixed_keys_distinct.
  apply (bool_decide_unpack _). by vm_compute.
Qed.

End RouteTableFacts.

(* ===================================================================== *)
(** ** What the copy brings over *)
(* ===================================================================== *)

Section CopyFacts.
Import Text Cli.
Local Open Scope string_scope.

Lemma pathPrefixes_whole (rel acc : string) :
  In (acc ++ rel) (pathPrefixes rel acc).
Proof.
  revert acc. induction rel as [|c rel IH]; intros acc.
  - rewrite append_nil_r. by left.
  - cbn [pathPrefixes]. destruct (Ascii.eqb_spec c "/") as [->|Hc].
    + right. specialize (IH (acc ++ sep)). by rewrite append_assoc in IH.
    + specialize (IH (acc ++ String c "")). by rewrite append_assoc in IH.
Qed.

Lemma reached_accepted (templateDir p : string) :
  reached templateDir p = true ->
  isUnder templateDir p = true /\ filterFunc templateDir p = true.
Proof.
  unfold reached. intros Hreached.
  apply andb_true_iff in Hreached as [Hreached Hway].
  apply andb_true_iff in Hreached as [Hunder Hroot].
  split; [exact Hunder|].
  destruct (isUnder_split _ _ Hunder) as [-> | [rest ->]]; [exact Hroot|].
  apply orb_true_iff in Hway as [Heq | Hall].
  - apply String.eqb_eq in Heq. by rewrite Heq.
  - rewrite relative_below in Hall.
    rewrite forallb_forall in Hall. apply (Hall rest).
    apply (pathPrefixes_whole rest "").
Qed.

(** X17. What is in the file system after [fs.copy] was either there before
    or is the entry of a path at or below the template that the filter
    accepts, put at the same place below the target. *)
Theorem copyTree_copies_only_accepted
    (templateDir targetDir : string) (fs : gmap string Entry)
    (q : string) (e : Entry) :
  copyTree templateDir targetDir fs !! q = Some e ->
  fs !! q = Some e
  \/ exists p,
       fs !! p = Some e
       /\ isUnder templateDir p = true
       /\ filterFunc templateDir p = true
       /\ q = targetDir ++ dropChars (String.length templateDir) p.
Proof.
  unfold copyTree. intros Hq.
  apply lookup_union_Some_raw in Hq as [Hcopied | [_ Hold]]; [right | by left].
  apply elem_of_list_to_map_2, list_elem_of_omap in Hcopied as ([p e0] & Hin & Hcopy).
  apply elem_of_map_to_list in Hin. simpl in Hcopy.
  destruct (reached templateDir p) eqn:Hreached; [|done].
  injection Hcopy as <- <-.
  destruct (reached_accepted _ _ Hreached) as [Hunder Haccepted].
  by exists p.
Qed.

End CopyFacts.

(** X17 on the example installation: the package.json of the new project
    is the template's. *)
Lemma copyTree_copies_only_accepted_witness :
  Cli.sampleFs !! "/home/dev/new-app/server/package.json"
  = Some (Cli.File "name: {{PROJECT_NAME}}")
  \/ exists p,
       Cli.sampleFs !! p = Some (Cli.File "name: {{PROJECT_NAME}}")
       /\ Cli.isUnder "/pkg/template" p = true
       /\ Cli.filterFunc "/pkg/template" p = true
       /\ "/home/dev/new-app/server/package.json"
          = ("/home/dev/new-app" ++ Text.dropChars (String.length "/pkg/template") p)%string.
Proof.
  apply (copyTree_copies_only_accepted "/pkg/template" "/home/dev/new-app"
           Cli.sampleFs "/home/dev/new-app/server/package.json"
           (Cli.File "name: {{PROJECT_NAME}}")).
  vm_compute. reflexivity.
Defined.
